(** * Batch document-to-Markdown conversion scripts

    A shallow embedding of the four driver scripts [docling/main.py],
    [marker/main.py], [markitdown/main.py] and [pymupdf/main.py], and the
    properties of their source enumeration, filtering, counting and
    output layout.

    The scripts are glue around an external conversion library and the
    file system.  Both are represented by a [World]: a snapshot of the
    file system (what [exists], [is_file], [stat], [glob] and [rglob]
    answer) together with the outcomes of the library's entry point and
    of the directory and file writes.  Every call that reaches the
    outside is recorded in a trace of events, and the outcome of a call
    may depend on everything that happened before it.

    Exceptions are Python exceptions of class [Exception], the class the
    scripts' handlers name; [sys.exit] is a separate outcome that no
    handler of the scripts intercepts.  Console output is not part of the
    model, except for the figures of the final summary, which [main]
    returns as a [report]. *)

From stdpp Require Import base decidable option list strings gmap.
From Stdlib Require Import Ascii String QArith.

Close Scope Q_scope.
Local Open Scope string_scope.
Local Open Scope list_scope.

(** ** Strings *)

(** [str.lower] on the ASCII range; the allow-lists below are ASCII. *)
Definition lower_ascii (c : ascii) : ascii :=
  let n := nat_of_ascii c in
  if ((65 <=? n) && (n <=? 90))%nat then ascii_of_nat (n + 32) else c.

Fixpoint lower (s : string) : string :=
  match s with
  | EmptyString => EmptyString
  | String c r => String (lower_ascii c) (lower r)
  end.

(** [s.rfind(c)]: index of the last occurrence, [None] for Python's -1. *)
Fixpoint rfind (c : ascii) (s : string) : option nat :=
  match s with
  | EmptyString => None
  | String a r =>
      match rfind c r with
      | Some i => Some (S i)
      | None => if Ascii.eqb a c then Some 0%nat else None
      end
  end.

(** [s[:i]] and [s[i:]]. *)
Fixpoint str_take (i : nat) (s : string) : string :=
  match i, s with
  | S j, String a r => String a (str_take j r)
  | _, _ => EmptyString
  end.

Fixpoint str_drop (i : nat) (s : string) : string :=
  match i, s with
  | S j, String _ r => str_drop j r
  | _, _ => s
  end.

(** [c in s] for a single character. *)
Fixpoint str_contains (c : ascii) (s : string) : bool :=
  match s with
  | EmptyString => false
  | String a r => Ascii.eqb a c || str_contains c r
  end.

Definition startswith_dot (s : string) : bool :=
  match s with
  | String a _ => Ascii.eqb a "."
  | EmptyString => false
  end.

(** ** Paths

    A [pathlib] path is the list of its parts; an absolute path has the
    part ["/"] in front, as in [PurePosixPath.parts].  The properties
    [suffix], [stem] and [with_suffix] are those of Python 3.11, the
    version the marker script names. *)

Abbreviation Path := (list string).

Fixpoint split_slash (s cur : string) : list string :=
  match s with
  | EmptyString => [cur]
  | String c r =>
      if Ascii.eqb c "/" then cur :: split_slash r ""
      else split_slash r (cur +:+ String c "")
  end.

Definition is_part (x : string) : bool :=
  negb (String.eqb x "") && negb (String.eqb x ".").

(** [Path(s)]: empty and ["."] segments are dropped. *)
Definition Path_of_str (s : string) : Path :=
  let segs := List.filter is_part (split_slash s "") in
  if str_take 1 s =? "/" then "/" :: segs else segs.

Definition is_absolute (p : Path) : bool :=
  match p with
  | h :: _ => h =? "/"
  | [] => false
  end.

(** [p / q] for a path [q], and [p / key] for a string [key]: an
    absolute right-hand side replaces the left-hand side. *)
Definition joinpath (p q : Path) : Path :=
  if is_absolute q then q else p ++ q.

Definition truediv (p : Path) (key : string) : Path :=
  joinpath p (Path_of_str key).

(** [str(p)]. *)
Definition path_str (p : Path) : string :=
  match p with
  | [] => "."
  | h :: r => if h =? "/" then "/" +:+ String.concat "/" r
              else String.concat "/" p
  end.

(** [p.name]: the last part, empty for the root and for [Path(".")]. *)
Definition name (p : Path) : string :=
  let n := List.last p "" in
  if n =? "/" then "" else n.

(** [PurePath.suffix] and [PurePath.stem] on the name: the last dot
    counts unless it is the first or the last character. *)
Definition suffix_of (n : string) : string :=
  match rfind "." n with
  | Some i => if ((0 <? i) && (i + 1 <? String.length n))%nat
              then str_drop i n else ""
  | None => ""
  end.

Definition stem_of (n : string) : string :=
  match rfind "." n with
  | Some i => if ((0 <? i) && (i + 1 <? String.length n))%nat
              then str_take i n else n
  | None => n
  end.

Definition suffix (p : Path) : string := suffix_of (name p).
Definition stem (p : Path) : string := stem_of (name p).

(** [p.parent]. *)
Definition parent (p : Path) : Path := List.removelast p.

(** ** Exceptions, events and the outside world *)

Inductive exn : Type :=
  | FileNotFoundError
  | IsADirectoryError
  | ValueError
  | OSError
  | LibraryError (msg : string).

(** What the library's entry point is called with: a string (a file
    path or a URL) or a byte stream carrying a name. *)
Inductive conv_arg : Type :=
  | ArgStr (s : string)
  | ArgStream (stream_name : string).

(** The object a conversion returns, as far as the scripts look at it:
    - [export_markdown]: the outcome of [result.document.export_to_markdown()]
      (docling) and of [text_from_rendered(rendered)] (marker);
    - [text_content]: the attribute [result.text_content] (markitdown);
      for pymupdf, whose entry point is the script's own
      [extract_text_from_pdf], the text that function returns;
    - [rendered_str]: [str(rendered)] (marker, formats other than Markdown). *)
Record Rendered : Type := {
  export_markdown : exn + string;
  text_content : string;
  rendered_str : string
}.

Inductive event : Type :=
  | EStat (p : Path)
  | ERead (p : Path)
  | EConvert (a : conv_arg)
  | EMkdir (p : Path)
  | EWrite (p : Path) (content : string).

#[global] Instance exn_eq_dec : EqDecision exn.
Proof. solve_decision. Defined.

#[global] Instance conv_arg_eq_dec : EqDecision conv_arg.
Proof. solve_decision. Defined.

#[global] Instance event_eq_dec : EqDecision event.
Proof. solve_decision. Defined.

Record stat_result : Type := {
  st_is_file : bool;
  st_size : N
}.

Record World : Type := {
  fs_stat : Path → option stat_result;
  fs_glob : Path → list Path;
  fs_rglob : Path → list Path;
  lib_setup : exn + unit;
  lib_convert : list event → conv_arg → exn + Rendered;
  os_mkdir : list event → Path → exn + unit;
  os_write : list event → Path → string → exn + unit
}.

(** ** Computations with a trace, exceptions and exit *)

Inductive result (A : Type) : Type :=
  | Ok (a : A)
  | Raise (e : exn)
  | Exit (code : nat).

Arguments Ok {A} a.
Arguments Raise {A} e.
Arguments Exit {A} code.

Definition M (A : Type) : Type := list event → result A * list event.

Definition ret {A} (a : A) : M A := λ tr, (Ok a, tr).

Definition bind {A B} (m : M A) (k : A → M B) : M B :=
  λ tr, match m tr with
        | (Ok a, tr') => k a tr'
        | (Raise e, tr') => (Raise e, tr')
        | (Exit c, tr') => (Exit c, tr')
        end.

Definition raise {A} (e : exn) : M A := λ tr, (Raise e, tr).

Definition sys_exit {A} (code : nat) : M A := λ tr, (Exit code, tr).

(** [try: body except Exception: handler]. *)
Definition try_except {A} (body : M A) (handler : exn → M A) : M A :=
  λ tr, match body tr with
        | (Raise e, tr') => handler e tr'
        | r => r
        end.

Definition lift {A} (o : exn + A) : M A :=
  match o with
  | inl e => raise e
  | inr a => ret a
  end.

(** A call to the outside: the event is logged, then the world answers. *)
Definition call {A} (ev : event) (answer : list event → exn + A) : M A :=
  λ tr, let tr' := tr ++ [ev] in
        match answer tr' with
        | inl e => (Raise e, tr')
        | inr a => (Ok a, tr')
        end.

Declare Scope trace_scope.
Delimit Scope trace_scope with trace.
Notation "x <- c ;; k" := (bind c (λ x, k))
  (at level 100, c at next level, right associativity) : trace_scope.
Notation "c ;;; k" := (bind c (λ _, k))
  (at level 100, right associativity) : trace_scope.
Local Open Scope trace_scope.

(** [for x in l: s = body(x, s)]. *)
Fixpoint for_each {A S : Type} (l : list A) (body : A → S → M S) (s : S) : M S :=
  match l with
  | [] => ret s
  | x :: r => s' <- body x s ;; for_each r body s'
  end.

(** ** File-system and library calls *)

Section Calls.
Variable w : World.

(** [p.exists()] and [p.is_file()]. *)
Definition exists_ (p : Path) : bool :=
  match fs_stat w p with
  | Some _ => true
  | None => false
  end.

Definition is_file (p : Path) : bool :=
  match fs_stat w p with
  | Some st => st_is_file st
  | None => false
  end.

(** [p.stat()]. *)
Definition stat (p : Path) : M stat_result :=
  call (EStat p) (λ _, match fs_stat w p with
                       | Some st => inr st
                       | None => inl FileNotFoundError
                       end).

(** [open(p, 'rb').read()], of which the scripts use the length. *)
Definition read_bytes (p : Path) : M N :=
  call (ERead p) (λ _, match fs_stat w p with
                       | Some st => if st_is_file st then inr (st_size st)
                                    else inl IsADirectoryError
                       | None => inl FileNotFoundError
                       end).

(** [folder.glob('*')] and [folder.rglob('*')]: the world lists the
    entries relative to the folder, in the order of the traversal. *)
Definition glob (folder : Path) : list Path :=
  List.map (λ r, folder ++ r) (fs_glob w folder).

Definition rglob (folder : Path) : list Path :=
  List.map (λ r, folder ++ r) (fs_rglob w folder).

(** The conversion entry point: [converter.convert(...)] (docling),
    [converter(...)] (marker), [md.convert(...)] (markitdown), and for
    pymupdf the script's [extract_text_from_pdf(...)], which wraps the
    library and re-raises each of its failures as an [Exception]. *)
Definition convert (a : conv_arg) : M Rendered :=
  call (EConvert a) (λ tr, lib_convert w tr a).

(** [p.mkdir(parents=True, exist_ok=True)]. *)
Definition mkdir (p : Path) : M unit :=
  call (EMkdir p) (λ tr, os_mkdir w tr p).

(** [with open(p, 'w') as f: f.write(content)]. *)
Definition write (p : Path) (content : string) : M unit :=
  call (EWrite p content) (λ tr, os_write w tr p content).
End Calls.

(** [p.relative_to(base)]. *)
Fixpoint strip_prefix (base p : Path) : option Path :=
  match base, p with
  | [], _ => Some p
  | b :: bs, x :: xs => if b =? x then strip_prefix bs xs else None
  | _ :: _, [] => None
  end.

Definition relative_to (p base : Path) : M Path :=
  match strip_prefix base p with
  | Some r => ret r
  | None => raise ValueError
  end.

(** [p.with_suffix(sfx)]. *)
Definition with_suffix (p : Path) (sfx : string) : M Path :=
  if str_contains "/" sfx then raise ValueError
  else if (negb (sfx =? "") && negb (startswith_dot sfx)) || (sfx =? ".")
  then raise ValueError
  else
    let n := name p in
    if n =? "" then raise ValueError
    else
      let old_suffix := suffix p in
      let n' := if old_suffix =? "" then n +:+ sfx
                else str_take (String.length n - String.length old_suffix) n +:+ sfx in
      ret (parent p ++ [n']).

(** ** Configuration constants *)

Inductive tool : Type := docling | marker | markitdown | pymupdf.

#[global] Instance tool_eq_dec : EqDecision tool.
Proof. solve_decision. Defined.

Definition tool_dir (t : tool) : string :=
  match t with
  | docling => "docling"
  | marker => "marker"
  | markitdown => "markitdown"
  | pymupdf => "pymupdf"
  end.

Definition OUTPUT_DIR_NAME : string := "output".

(** The marker script's output format as the repository sets it; the
    functions below take the format as a parameter. *)
Definition OUTPUT_FORMAT : string := "markdown".

Definition SUPPORTED_EXTENSIONS (t : tool) : gset string :=
  match t with
  | docling =>
      {[ ".pdf"; ".docx"; ".pptx"; ".xlsx"; ".xls"; ".html"; ".htm";
         ".txt"; ".csv";
         ".jpg"; ".jpeg"; ".png"; ".tiff"; ".bmp";
         ".wav"; ".mp3"; ".m4a";
         ".vtt" ]}
  | marker =>
      {[ ".pdf"; ".docx"; ".pptx"; ".xlsx"; ".xls"; ".html"; ".htm";
         ".epub";
         ".png"; ".jpg"; ".jpeg"; ".tiff"; ".bmp"; ".gif" ]}
  | markitdown =>
      {[ ".pdf"; ".docx"; ".xlsx"; ".xls"; ".txt"; ".csv"; ".html"; ".htm";
         ".epub"; ".rtf"; ".odt";
         ".jpg"; ".jpeg"; ".png"; ".gif"; ".bmp"; ".tiff";
         ".wav"; ".mp3"; ".m4a";
         ".mp4"; ".mov"; ".avi" ]}
  | pymupdf => {[ ".pdf" ]}
  end.

Definition supported (t : tool) (p : Path) : bool :=
  bool_decide (lower (suffix p) ∈ SUPPORTED_EXTENSIONS t).

Definition MAX_FILE_SIZE_MB : Q := 50%Q.

(** [size / (1024 * 1024)]: a division by a power of two, which binary
    floating point performs exactly on file sizes; taken in the
    rationals. *)
Definition file_size_mb (size : N) : Q :=
  (inject_Z (Z.of_N size) / inject_Z (1024 * 1024))%Q.

(** [file_size_mb > MAX_FILE_SIZE_MB]. *)
Definition too_large (size : N) : bool :=
  negb (Qle_bool (file_size_mb size) MAX_FILE_SIZE_MB).

(** An entry of [SOURCES].  ["path"] is read with [source_config["path"]]
    and is present in every entry; the other keys are read with [.get]. *)
Record source_config : Type := {
  src_type : option string;
  src_path : string;
  src_name : option string;
  src_recursive : option bool
}.

Abbreviation counts := (nat * nat * nat)%type.

(** ** The scripts

    The four scripts share their structure.  They differ in the
    allow-list, in the directory they write under, in how the text is
    taken from the library's result, in how [markitdown] hands a single
    file to the library, and in [pymupdf] having no URL branch. *)

Inductive handler : Type := Folder | File | Url.

Record report : Type := {
  total_processed : nat;
  converted_count : nat;
  failed_count : nat;
  skipped_count : nat
}.

Section Script.
Variable w : World.
Variable t : tool.
Variable fmt : string.

(** The text to write and the extension to write it under.  The marker
    script follows its output format [fmt]; the other three write Markdown
    under the literal [".md"]. *)
Definition export (rendered : Rendered) : M (string * string) :=
  match t with
  | docling =>
      markdown_content <- lift (export_markdown rendered) ;;
      ret (markdown_content, ".md")
  | marker =>
      if decide (fmt = "markdown")
      then text <- lift (export_markdown rendered) ;; ret (text, ".md")
      else ret (rendered_str rendered, "." +:+ fmt)
  | markitdown | pymupdf => ret (text_content rendered, ".md")
  end.

(** *** [process_folder_source] *)

(** The body of the [try] statement in the loop, up to the write and
    the size printed after it. *)
Definition convert_folder_file (output_dir : Path) (source_name : string)
    (folder_path file_path : Path) : M unit :=
  rendered <- convert w (ArgStr (path_str file_path)) ;;
  ce <- export rendered ;;
  relative_path <- relative_to file_path folder_path ;;
  renamed <- with_suffix relative_path ce.2 ;;
  let output_file_path := joinpath (truediv output_dir source_name) renamed in
  mkdir w (parent output_file_path) ;;;
  write w output_file_path ce.1 ;;;
  stat w file_path ;;;
  ret tt.

(** One iteration of [for file_path in file_iterator].  The relative
    path is computed for the message printed before the attempt or the
    skip. *)
Definition folder_step (output_dir : Path) (source_name : string)
    (folder_path file_path : Path) (cnt : counts) : M counts :=
  let '(converted, failed, skipped) := cnt in
  if is_file w file_path && supported t file_path then
    st <- stat w file_path ;;
    if too_large (st_size st) then
      relative_to file_path folder_path ;;;
      ret (converted, failed, skipped + 1)
    else
      relative_to file_path folder_path ;;;
      try_except
        (convert_folder_file output_dir source_name folder_path file_path ;;;
         ret (converted + 1, failed, skipped))
        (λ _, ret (converted, failed + 1, skipped))
  else ret cnt.

Definition file_iterator (source_config : source_config) : list Path :=
  let folder_path := Path_of_str (src_path source_config) in
  if default true (src_recursive source_config)
  then rglob w folder_path else glob w folder_path.

Definition process_folder_source (source_config : source_config)
    (output_dir : Path) : M counts :=
  let folder_path := Path_of_str (src_path source_config) in
  let source_name := default (name folder_path) (src_name source_config) in
  if negb (exists_ w folder_path) then ret (0, 0, 0)
  else
    for_each (file_iterator source_config)
             (folder_step output_dir source_name folder_path) (0, 0, 0).

(** *** [process_file_source] *)

(** The size the script compares: [stat().st_size], or in markitdown
    the length of the bytes read. *)
Definition single_file_size (file_path : Path) : M N :=
  match t with
  | markitdown => read_bytes w file_path
  | _ => st <- stat w file_path ;; ret (st_size st)
  end.

Definition single_file_arg (file_path : Path) : conv_arg :=
  match t with
  | markitdown => ArgStream (path_str file_path)
  | _ => ArgStr (path_str file_path)
  end.

(** The [try] statement's body after the size check: conversion,
    write, and (except in markitdown, which prints the length of the
    bytes it read) the size printed from a second [stat]. *)
Definition write_single_file (output_dir : Path) (source_name : string)
    (file_path : Path) : M counts :=
  rendered <- convert w (single_file_arg file_path) ;;
  ce <- export rendered ;;
  let output_file_path :=
    truediv (truediv output_dir "single_files") (source_name +:+ ce.2) in
  mkdir w (parent output_file_path) ;;;
  write w output_file_path ce.1 ;;;
  match t with
  | markitdown => ret tt
  | _ => stat w file_path ;;; ret tt
  end ;;;
  ret (1, 0, 0).

(** The body of the [try] statement. *)
Definition convert_single_file (output_dir : Path) (source_name : string)
    (file_path : Path) : M counts :=
  size <- single_file_size file_path ;;
  if too_large size then ret (0, 0, 1)
  else write_single_file output_dir source_name file_path.

Definition process_file_source (source_config : source_config)
    (output_dir : Path) : M counts :=
  let file_path := Path_of_str (src_path source_config) in
  let source_name := default (stem file_path) (src_name source_config) in
  if negb (exists_ w file_path) then ret (0, 1, 0)
  else if negb (supported t file_path) then ret (0, 1, 0)
  else
    try_except (convert_single_file output_dir source_name file_path)
               (λ _, ret (0, 1, 0)).

(** *** [process_url_source] (docling, marker, markitdown) *)

Definition convert_url (output_dir : Path) (source_name url : string) : M counts :=
  rendered <- convert w (ArgStr url) ;;
  ce <- export rendered ;;
  let output_file_path :=
    truediv (truediv output_dir "urls") (source_name +:+ ce.2) in
  mkdir w (parent output_file_path) ;;;
  write w output_file_path ce.1 ;;;
  ret (1, 0, 0).

Definition process_url_source (source_config : source_config)
    (output_dir : Path) : M counts :=
  let url := src_path source_config in
  let source_name := default "web_content" (src_name source_config) in
  try_except (convert_url output_dir source_name url)
             (λ _, ret (0, 1, 0)).

(** *** [convert_from_sources] *)

(** The [if]/[elif] chain on the source type; [None] is its [else]
    branch.  The pymupdf script has no ["url"] case. *)
Definition dispatch (source_type : option string) : option handler :=
  if decide (source_type = Some "folder") then Some Folder
  else if decide (source_type = Some "file") then Some File
  else match t with
       | pymupdf => None
       | _ => if decide (source_type = Some "url") then Some Url else None
       end.

Definition run_handler (h : handler) (source_config : source_config)
    (output_dir : Path) : M counts :=
  match h with
  | Folder => process_folder_source source_config output_dir
  | File => process_file_source source_config output_dir
  | Url => process_url_source source_config output_dir
  end.

(** One iteration of [for source_config in sources]. *)
Definition source_step (output_dir : Path) (source_config : source_config)
    (totals : counts) : M counts :=
  let '(total_converted, total_failed, total_skipped) := totals in
  match dispatch (src_type source_config) with
  | Some h =>
      r <- run_handler h source_config output_dir ;;
      let '(converted, failed, skipped) := r in
      ret (total_converted + converted, total_failed + failed,
           total_skipped + skipped)
  | None => ret totals
  end.

Definition convert_from_sources (sources : list source_config)
    (output_dir : Path) : M counts :=
  for_each sources (source_step output_dir) (0, 0, 0).

(** *** [main] *)

Definition setup_output_directory : M Path :=
  let output_dir := truediv (Path_of_str (tool_dir t)) OUTPUT_DIR_NAME in
  mkdir w output_dir ;;;
  ret output_dir.

(** [setup_docling], [setup_marker], [setup_markitdown]: a failure to
    create the converter ends the run with [sys.exit(1)].
    [setup_pymupdf] only returns the module. *)
Definition setup_converter : M unit :=
  match t with
  | pymupdf => ret tt
  | _ => match lib_setup w with
         | inl _ => sys_exit 1
         | inr _ => ret tt
         end
  end.

Definition main (SOURCES : list source_config) : M report :=
  match SOURCES with
  | [] => sys_exit 1
  | _ =>
      output_dir <- setup_output_directory ;;
      setup_converter ;;;
      r <- convert_from_sources SOURCES output_dir ;;
      let '(converted, failed, skipped) := r in
      ret {| total_processed := converted + failed + skipped;
             converted_count := converted;
             failed_count := failed;
             skipped_count := skipped |}
  end.
End Script.

(** ** Vocabulary of the properties *)

(** The conversion calls and the written paths found in a list of events. *)
Definition conversions (evs : list event) : list conv_arg :=
  omap (λ ev, match ev with EConvert a => Some a | _ => None end) evs.

Definition writes (evs : list event) : list Path :=
  omap (λ ev, match ev with EWrite p _ => Some p | _ => None end) evs.

(** The size the file system reports for an entry. *)
Definition size_of (w : World) (p : Path) : N :=
  match fs_stat w p with
  | Some st => st_size st
  | None => 0%N
  end.

(** A regular file whose lowercased extension is in the allow-list. *)
Definition candidate (w : World) (t : tool) (p : Path) : bool :=
  is_file w p && supported t p.

(** A candidate above the size limit, and one at or below it. *)
Definition oversized (w : World) (t : tool) (p : Path) : bool :=
  candidate w t p && too_large (size_of w p).

Definition convertible (w : World) (t : tool) (p : Path) : bool :=
  candidate w t p && negb (too_large (size_of w p)).


(** The extension the scripts write under. *)
Definition output_extension (t : tool) (fmt : string) : string :=
  match t with
  | marker => if decide (fmt = "markdown") then ".md" else "." +:+ fmt
  | _ => ".md"
  end.

Definition add_counts (a b : counts) : counts :=
  (a.1.1 + b.1.1, a.1.2 + b.1.2, a.2 + b.2).

Definition sum_counts (rs : list counts) : counts :=
  foldr add_counts (0, 0, 0) rs.

(** The triples the per-source functions return, in the order of the
    sources; a source of a type that is not dispatched returns none. *)
Fixpoint source_results (w : World) (t : tool) (fmt : string)
    (sources : list source_config) (output_dir : Path) : M (list counts) :=
  match sources with
  | [] => ret []
  | source_config :: rest =>
      match dispatch t (src_type source_config) with
      | Some h =>
          r <- run_handler w t fmt h source_config output_dir ;;
          rs <- source_results w t fmt rest output_dir ;;
          ret (r :: rs)
      | None => source_results w t fmt rest output_dir
      end
  end.

(** [m] neither exits nor logs a conversion call other than [cs]. *)
Definition no_exit {A} (r : result A) : Prop :=
  match r with
  | Exit _ => False
  | _ => True
  end.

Definition logs {A} (m : M A) (cs : list conv_arg) : Prop :=
  ∀ tr, ∃ r evs, m tr = (r, tr ++ evs) ∧ conversions evs = cs ∧ no_exit r.

(** [m] does not exit, and a value it returns satisfies [P]. *)
Definition returns {A} (m : M A) (P : A → Prop) : Prop :=
  ∀ tr, ∃ r evs, m tr = (r, tr ++ evs)
                 ∧ match r with
                   | Ok a => P a
                   | Raise _ => True
                   | Exit _ => False
                   end.

(** [m] returns a value, whatever the world answers. *)
Definition total {A} (m : M A) : Prop :=
  ∀ tr, ∃ a evs, m tr = (Ok a, tr ++ evs).

(** ** Sample worlds and sources *)

Definition regular_file (size : N) : option stat_result :=
  Some {| st_is_file := true; st_size := size |}.

Definition directory : option stat_result :=
  Some {| st_is_file := false; st_size := 4096 |}.

Definition sample_rendered : Rendered :=
  {| export_markdown := inr "# text";
     text_content := "# text";
     rendered_str := "<rendered>" |}.

(** A folder [docs] with a small PDF, a PDF and a binary file of 60 MB
    each, and a sub-folder holding an HTML file the library rejects. *)
Definition sample_world : World := {|
  fs_stat p :=
    if decide (p = ["docs"]) then directory
    else if decide (p = ["docs"; "a.pdf"]) then regular_file 100
    else if decide (p = ["docs"; "big.PDF"]) then regular_file 62914560
    else if decide (p = ["docs"; "notes.bin"]) then regular_file 62914560
    else if decide (p = ["docs"; "sub"]) then directory
    else if decide (p = ["docs"; "sub"; "b.html"]) then regular_file 10
    else None;
  fs_glob p :=
    if decide (p = ["docs"])
    then [["a.pdf"]; ["big.PDF"]; ["notes.bin"]; ["sub"]] else [];
  fs_rglob p :=
    if decide (p = ["docs"])
    then [["a.pdf"]; ["big.PDF"]; ["notes.bin"]; ["sub"]; ["sub"; "b.html"]]
    else [];
  lib_setup := inr tt;
  lib_convert _ a :=
    if decide (a = ArgStr "docs/sub/b.html") then inl (LibraryError "bad html")
    else if decide (a = ArgStream "docs/sub/b.html") then inl (LibraryError "bad html")
    else if decide (a = ArgStr "https://example.com/broken") then inl (LibraryError "404")
    else inr sample_rendered;
  os_mkdir _ _ := inr tt;
  os_write _ _ _ := inr tt
|}.


Definition folder_source (path : string) : source_config :=
  {| src_type := Some "folder"; src_path := path;
     src_name := Some "docs"; src_recursive := Some true |}.

Definition file_source (path : string) : source_config :=
  {| src_type := Some "file"; src_path := path;
     src_name := Some "one"; src_recursive := None |}.

Definition url_source (url : string) : source_config :=
  {| src_type := Some "url"; src_path := url;
     src_name := Some "page"; src_recursive := None |}.

Definition ftp_source : source_config :=
  {| src_type := Some "ftp"; src_path := "ftp://example.com/a.pdf";
     src_name := None; src_recursive := None |}.

(** ** Further vocabulary *)

(** The paths whose size or content was queried in a list of events. *)
Definition fs_reads (evs : list event) : list Path :=
  omap (λ ev, match ev with
              | EStat p => Some p
              | ERead p => Some p
              | _ => None
              end) evs.


(** Every event [m] logs satisfies [Q]. *)
Definition within {A} (Q : event → Prop) (m : M A) : Prop :=
  ∀ tr, ∃ r evs, m tr = (r, tr ++ evs) ∧ Forall Q evs.

Definition is_fs_read (ev : event) : bool :=
  match ev with
  | EStat _ | ERead _ => true
  | _ => false
  end.

(** [m] logs at most [n] writes. *)
Definition writes_at_most {A} (n : nat) (m : M A) : Prop :=
  ∀ tr, ∃ r evs, m tr = (r, tr ++ evs) ∧ (List.length (writes evs) ≤ n)%nat.

(** The counters [r] a run returned agree with its events [evs]: no more
    conversions counted than outputs written, no more outputs written than
    conversion calls made, and every conversion call counted as converted
    or failed. *)
Definition balanced (r : counts) (evs : list event) : Prop :=
  (r.1.1 ≤ List.length (writes evs))%nat
  ∧ (List.length (writes evs) ≤ List.length (conversions evs))%nat
  ∧ (List.length (conversions evs) ≤ r.1.1 + r.1.2)%nat.

(** Every event [m] logs satisfies [Q], and a value it returns satisfies
    [P]. *)
Definition spec {A} (Q : event → Prop) (P : A → Prop) (m : M A) : Prop :=
  ∀ tr, ∃ r evs, m tr = (r, tr ++ evs) ∧ Forall Q evs
                 ∧ ∀ a, r = Ok a → P a.




(** The one path an attempt may write, with the directory it creates for
    it. *)
Definition writes_only (p : Path) (ev : event) : Prop :=
  match ev with
  | EWrite q _ => q = p
  | EMkdir q => q = parent p
  | _ => True
  end.

(** No file written is a candidate of any of the four scripts. *)
Definition writes_unsupported (ev : event) : Prop :=
  match ev with
  | EWrite p _ => ∀ t, supported t p = false
  | _ => True
  end.

(** ** [extract_text_from_pdf] (pymupdf)

    The PyMuPDF library is represented by what its calls answer: a text,
    or the message [str(e)] of the exception they raise.  Strings are the
    UTF-8 bytes of the Python strings.  [str.strip] is a parameter
    [strip] of the functions below; [ascii_strip] is its behaviour on
    text whose leading and trailing characters are ASCII. *)

From Stdlib Require Import DecimalString.

Definition nl : string := String "010" "".

(** What [text_dict = page.get_text("dict")] holds, each key read with
    [.get]. *)
Record span_dict : Type := { span_text : option string }.
Record line_dict : Type := { line_spans : option (list span_dict) }.
Record block_dict : Type := {
  block_type : option Z;
  block_lines : option (list line_dict)
}.
Record text_dict : Type := { dict_blocks : option (list block_dict) }.

Record Page : Type := {
  (** [page.get_text()] *)
  get_text : string + string;
  (** [page.get_text("blocks")]: the item 4 of each block *)
  get_text_blocks : string + list string;
  (** [page.get_text("dict")] *)
  get_text_dict : string + text_dict;
  (** [page.get_text(mode)] *)
  get_text_mode : string → string + string
}.

(** An opened document: [len(doc)] is the length of [doc_pages],
    [doc.load_page(i)] its item [i], [doc.close()] is [doc_close]. *)
Record Document : Type := {
  doc_pages : list (string + Page);
  doc_close : string + unit
}.

(** Whether the document was opened, and whether it was closed again. *)
Inductive doc_state : Type := NotOpened | LeftOpen | Closed.

Definition is_ascii_space (c : ascii) : bool :=
  let n := nat_of_ascii c in
  (((9 <=? n) && (n <=? 13)) || ((28 <=? n) && (n <=? 32)))%nat.

Fixpoint lstrip (s : string) : string :=
  match s with
  | String c r => if is_ascii_space c then lstrip r else s
  | EmptyString => EmptyString
  end.

Fixpoint rstrip (s : string) : string :=
  match s with
  | String c r =>
      match rstrip r with
      | EmptyString => if is_ascii_space c then EmptyString else String c EmptyString
      | r' => String c r'
      end
  | EmptyString => EmptyString
  end.

Definition ascii_strip (s : string) : string := rstrip (lstrip s).

Section Extract.
Variable strip : string → string.

(** The [for span in line.get("spans", [])] loop and the line's newline. *)
Definition add_line (text : string) (line : line_dict) : string :=
  fold_left (λ text span, text +:+ (default "" (span_text span) +:+ " "))
            (default [] (line_spans line)) text
  +:+ nl.

(** The body of [for block in text_dict.get("blocks", [])]. *)
Definition add_block (text : string) (block : block_dict) : string :=
  if decide (block_type block = Some 0%Z)
  then fold_left add_line (default [] (block_lines block)) text +:+ nl
  else text.

(** The text of one page in the given mode. *)
Definition page_text (mode : string) (page : Page) : string + string :=
  if mode =? "text" then get_text page
  else if mode =? "blocks" then
    match get_text_blocks page with
    | inl msg => inl msg
    | inr blocks =>
        inr (String.concat nl
               (List.filter (λ b, negb (strip b =? "")) blocks))
    end
  else if mode =? "dict" then
    match get_text_dict page with
    | inl msg => inl msg
    | inr td => inr (fold_left add_block (default [] (dict_blocks td)) "")
    end
  else get_text_mode page mode.

Definition page_section (page_num : nat) (text : string) : string :=
  "## 頁面 " +:+ NilZero.string_of_uint (Nat.to_uint (page_num + 1))
  +:+ nl +:+ nl +:+ strip text.

(** [for page_num in range(len(doc))], from page [page_num] on. *)
Fixpoint pages_loop (mode : string) (pages : list (string + Page))
    (page_num : nat) (text_content : list string) : string + list string :=
  match pages with
  | [] => inr text_content
  | inl msg :: _ => inl msg
  | inr page :: rest =>
      match page_text mode page with
      | inl msg => inl msg
      | inr text =>
          pages_loop mode rest (page_num + 1)
            (if negb (strip text =? "")
             then text_content ++ [page_section page_num text]
             else text_content)
      end
  end.

Definition header : string := "# PDF 內容提取" +:+ nl +:+ nl.

Definition no_text : string := "*無法提取文字內容*".

Definition failure (msg : string) : string := "PDF 文字提取失敗: " +:+ msg.

(** The result: the Markdown text, or the message of the [Exception]
    raised; and what became of the document. *)
Definition extract_text_from_pdf (fitz_open : string → string + Document)
    (pdf_path mode : string) : (string + string) * doc_state :=
  match fitz_open pdf_path with
  | inl msg => (inl (failure msg), NotOpened)
  | inr doc =>
      match pages_loop mode (doc_pages doc) 0 [] with
      | inl msg => (inl (failure msg), LeftOpen)
      | inr text_content =>
          match doc_close doc with
          | inl msg => (inl (failure msg), LeftOpen)
          | inr _ =>
              (inr (match text_content with
                    | [] => header +:+ no_text
                    | _ => header +:+ String.concat (nl +:+ nl) text_content
                    end),
               Closed)
          end
      end
  end.
End Extract.

(** What loading a page and taking its text answers. *)
Definition page_outcome (strip : string → string) (mode : string)
    (entry : string + Page) : string + string :=
  match entry with
  | inl msg => inl msg
  | inr page => page_text strip mode page
  end.

(** The message of the first failure in a list of answers, and the texts
    in front of it. *)
Fixpoint first_failure {A} (l : list (string + A)) : option string :=
  match l with
  | [] => None
  | inl msg :: _ => Some msg
  | inr _ :: rest => first_failure rest
  end.

Fixpoint texts_before_failure {A} (l : list (string + A)) : list A :=
  match l with
  | inr a :: rest => a :: texts_before_failure rest
  | _ => []
  end.

(** The sections of the pages that have text, each under the number of
    its page, counted from [page_num + 1]. *)
Fixpoint sections_from (strip : string → string) (page_num : nat)
    (texts : list string) : list string :=
  match texts with
  | [] => []
  | text :: rest =>
      (if strip text =? "" then [] else [page_section strip page_num text])
      ++ sections_from strip (page_num + 1) rest
  end.

(** A two-page document: a page of text and a blank page. *)
Definition text_page (s : string) : Page :=
  {| get_text := inr s;
     get_text_blocks := inr [s; "  "];
     get_text_dict :=
       inr {| dict_blocks :=
                Some [ {| block_type := Some 1%Z; block_lines := None |};
                       {| block_type := Some 0%Z;
                          block_lines :=
                            Some [ {| line_spans :=
                                        Some [ {| span_text := Some s |};
                                               {| span_text := None |} ] |} ] |} ] |};
     get_text_mode := λ _, inl "bad mode" |}.

Definition sample_fitz (pdf_path : string) : string + Document :=
  if pdf_path =? "docs/a.pdf"
  then inr {| doc_pages := [inr (text_page "  "); inr (text_page " Hello ")];
              doc_close := inr tt |}
  else if pdf_path =? "docs/torn.pdf"
  then inr {| doc_pages := [inr (text_page "One"); inl "cannot load page"];
              doc_close := inr tt |}
  else inl "no such file".

(** A folder holding two documents of the same stem. *)
Definition twin_world : World := {|
  fs_stat p :=
    if decide (p = ["docs"]) then directory
    else if decide (p = ["docs"; "a.pdf"]) then regular_file 100
    else if decide (p = ["docs"; "a.docx"]) then regular_file 200
    else None;
  fs_glob p := if decide (p = ["docs"]) then [["a.pdf"]; ["a.docx"]] else [];
  fs_rglob p := if decide (p = ["docs"]) then [["a.pdf"]; ["a.docx"]] else [];
  lib_setup := inr tt;
  lib_convert _ _ := inr sample_rendered;
  os_mkdir _ _ := inr tt;
  os_write _ _ _ := inr tt
|}.

(** ** What a run writes *)

(** The argument a script hands to the library: a string, or in the
    markitdown script a stream. *)
Definition tool_arg (t : tool) (a : conv_arg) : Prop :=
  match a with
  | ArgStr _ => True
  | ArgStream _ => t = markitdown
  end.

(** In the events [evs] logged after [tr], every write comes right after
    a conversion call and the creation of the directory of the written
    file, and its content is the text exported from what that call
    returned. *)
Definition writes_follow_conversions (w : World) (t : tool) (fmt : string)
    (tr evs : list event) : Prop :=
  ∀ pre p content post,
    evs = pre ++ EWrite p content :: post →
    ∃ pre' a rendered extension,
      pre = pre' ++ [EConvert a; EMkdir (parent p)]
      ∧ tool_arg t a
      ∧ lib_convert w (tr ++ pre' ++ [EConvert a]) a = inr rendered
      ∧ export t fmt rendered [] = (Ok (content, extension), []).

(** From a trace satisfying [I], [m] ends in a trace satisfying [JOk]
    with the value it returns, or [JRaise] when it raises. *)
Definition triple {A} (I : list event → Prop) (m : M A)
    (JOk : A → list event → Prop) (JRaise : list event → Prop) : Prop :=
  ∀ tr, I tr →
    match m tr with
    | (Ok a, tr') => JOk a tr'
    | (Raise _, tr') => JRaise tr'
    | (Exit _, _) => True
    end.

Definition is_write (ev : event) : bool :=
  match ev with
  | EWrite _ _ => true
  | _ => false
  end.

(** The states of an attempt: the run so far, the conversion call
    answered, the text exported, the directory created. *)
Section Attempt.
Variables (w : World) (t : tool) (fmt : string) (base : list event).

Definition run_so_far (tr : list event) : Prop :=
  ∃ evs, tr = base ++ evs ∧ writes_follow_conversions w t fmt base evs.

Definition conversion_done (a : conv_arg) (rendered : Rendered)
    (tr : list event) : Prop :=
  ∃ evs, tr = base ++ evs ++ [EConvert a]
         ∧ writes_follow_conversions w t fmt base evs
         ∧ tool_arg t a
         ∧ lib_convert w tr a = inr rendered.

Definition text_exported (a : conv_arg) (rendered : Rendered)
    (ce : string * string) (tr : list event) : Prop :=
  conversion_done a rendered tr
  ∧ export t fmt rendered [] = (Ok ce, []).

Definition directory_made (a : conv_arg) (rendered : Rendered)
    (ce : string * string) (dir : Path) (tr : list event) : Prop :=
  ∃ evs, tr = base ++ evs ++ [EConvert a; EMkdir dir]
         ∧ writes_follow_conversions w t fmt base evs
         ∧ tool_arg t a
         ∧ lib_convert w (base ++ evs ++ [EConvert a]) a = inr rendered
         ∧ export t fmt rendered [] = (Ok ce, []).
End Attempt.

(** ** The pymupdf script over [extract_text_from_pdf] *)

Definition TEXT_EXTRACTION_MODE : string := "text".

(** The text [extract_text_from_pdf] returned, as the result of the
    conversion entry point. *)
Definition extracted (content : string) : Rendered :=
  {| export_markdown := inr content;
     text_content := content;
     rendered_str := content |}.

(** The world of the pymupdf script: the conversion entry point called
    with a path is [extract_text_from_pdf] in the configured mode, over
    what PyMuPDF answers at that point of the run. *)
Definition pymupdf_world (strip : string → string)
    (fitz : list event → string → string + Document) (w : World) : World := {|
  fs_stat := fs_stat w;
  fs_glob := fs_glob w;
  fs_rglob := fs_rglob w;
  lib_setup := lib_setup w;
  lib_convert tr a :=
    match a with
    | ArgStr pdf_path =>
        match (extract_text_from_pdf strip (fitz tr) pdf_path
                 TEXT_EXTRACTION_MODE).1 with
        | inr content => inr (extracted content)
        | inl message => inl (LibraryError message)
        end
    | ArgStream _ => lib_convert w tr a
    end;
  os_mkdir := os_mkdir w;
  os_write := os_write w
|}.

(** ** The preview printed after a conversion (docling, marker)

    [len] and slicing count characters, so the content is taken as the
    list of its code points. *)

Abbreviation codepoints := (list N).

Definition LF : N := 10.

Definition ellipsis : codepoints := [46; 46; 46]%N.

(** [content.split('\n')]. *)
Fixpoint split_lines (s : codepoints) : list codepoints :=
  match s with
  | [] => [[]]
  | c :: r =>
      if (c =? LF)%N then [] :: split_lines r
      else match split_lines r with
           | l :: ls => (c :: l) :: ls
           | [] => [[c]]
           end
  end.

(** ['\n'.join(lines)]. *)
Fixpoint join_lines (lines : list codepoints) : codepoints :=
  match lines with
  | [] => []
  | l :: rest =>
      match rest with
      | [] => l
      | _ => l ++ LF :: join_lines rest
      end
  end.

(** The preview of the stripped content:
    [lines = content.split('\n')[:3]; preview = '\n'.join(lines)], cut
    to 100 characters and ["..."] when longer. *)
Definition preview (content : codepoints) : codepoints :=
  let lines := take 3 (split_lines content) in
  let preview := join_lines lines in
  if (100 <? List.length preview)%nat then take 100 preview ++ ellipsis
  else preview.

(** * Properties *)

(** ** The model on small inputs *)

Example Path_of_str_relative :
  Path_of_str "_testing-files/pdf" = ["_testing-files"; "pdf"].
Proof. reflexivity. Qed.

Example Path_of_str_normalises :
  Path_of_str "/a//b/./c/" = ["/"; "a"; "b"; "c"] ∧ Path_of_str "." = [].
Proof. split; reflexivity. Qed.

Example path_str_joins :
  path_str ["docs"; "sub"; "b.html"] = "docs/sub/b.html"
  ∧ path_str ["/"; "a"] = "/a" ∧ path_str [] = ".".
Proof. repeat split; reflexivity. Qed.

Example suffix_last_dot :
  suffix ["x"; "a.tar.GZ"] = ".GZ" ∧ suffix [".profile"] = ""
  ∧ suffix ["a."] = "" ∧ stem ["x"; "a.tar.GZ"] = "a.tar".
Proof. repeat split; reflexivity. Qed.

Example supported_ignores_case :
  supported pymupdf ["big.PDF"] = true ∧ supported pymupdf ["a.docx"] = false
  ∧ supported marker ["a.epub"] = true ∧ supported docling ["a.epub"] = false.
Proof. repeat split; reflexivity. Qed.

Example with_suffix_replaces :
  with_suffix ["sub"; "a.tar.pdf"] ".md" [] = (Ok ["sub"; "a.tar.md"], [])
  ∧ with_suffix ["a.pdf"] "." [] = (Raise ValueError, []).
Proof. split; reflexivity. Qed.

Example too_large_boundary :
  too_large 52428800 = false ∧ too_large 52428801 = true.
Proof. split; reflexivity. Qed.

Example sample_folder_run :
  process_folder_source sample_world docling OUTPUT_FORMAT
    (folder_source "docs") ["docling"; "output"] []
  = (Ok (1, 1, 1),
     [EStat ["docs"; "a.pdf"]; EConvert (ArgStr "docs/a.pdf");
      EMkdir ["docling"; "output"; "docs"];
      EWrite ["docling"; "output"; "docs"; "a.md"] "# text";
      EStat ["docs"; "a.pdf"]; EStat ["docs"; "big.PDF"];
      EStat ["docs"; "sub"; "b.html"]; EConvert (ArgStr "docs/sub/b.html")]).
Proof. reflexivity. Qed.

(** The floating-point comparison in integers: a file is too large when
    its size exceeds 50 * 1024 * 1024 bytes. *)
Lemma too_large_spec (size : N) :
  too_large size = true ↔ (50 * (1024 * 1024) < size)%N.
Proof.
  unfold too_large, file_size_mb, MAX_FILE_SIZE_MB, Qle_bool.
  rewrite negb_true_iff, Z.leb_gt. simpl. lia.
Qed.

(** ** Traces and the combinators *)

Lemma conversions_app (evs1 evs2 : list event) :
  conversions (evs1 ++ evs2) = conversions evs1 ++ conversions evs2.
Proof. unfold conversions. apply omap_app. Qed.

Lemma writes_app (evs1 evs2 : list event) :
  writes (evs1 ++ evs2) = writes evs1 ++ writes evs2.
Proof. unfold writes. apply omap_app. Qed.

Lemma logs_ret {A} (a : A) : logs (ret a) [].
Proof. intros tr. exists (Ok a), []. by rewrite app_nil_r. Qed.

Lemma logs_raise {A} (e : exn) : logs (@raise A e) [].
Proof. intros tr. exists (Raise e), []. by rewrite app_nil_r. Qed.

Lemma logs_lift {A} (o : exn + A) : logs (lift o) [].
Proof. destruct o; [apply logs_raise | apply logs_ret]. Qed.

Lemma logs_call {A} (ev : event) (answer : list event → exn + A) :
  logs (call ev answer) (conversions [ev]).
Proof.
  intros tr. unfold call.
  destruct (answer (tr ++ [ev])) as [e|a];
    [exists (Raise e), [ev] | exists (Ok a), [ev]]; done.
Qed.

Lemma logs_bind {A B} (m : M A) (k : A → M B) (cs : list conv_arg) :
  logs m cs → (∀ a, logs (k a) []) → logs (bind m k) cs.
Proof.
  intros Hm Hk tr. unfold bind.
  destruct (Hm tr) as (r & evs & -> & Hcs & Hr).
  destruct r as [a|e|c]; [|by exists (Raise e), evs|done].
  destruct (Hk a (tr ++ evs)) as (r' & evs' & -> & Hcs' & Hr').
  exists r', (evs ++ evs'). rewrite conversions_app, Hcs, Hcs', app_nil_r.
  by rewrite app_assoc.
Qed.

Lemma logs_try {A} (body : M A) (handler : exn → M A) (cs : list conv_arg) :
  logs body cs → (∀ e, logs (handler e) []) → logs (try_except body handler) cs.
Proof.
  intros Hb Hh tr. unfold try_except.
  destruct (Hb tr) as (r & evs & -> & Hcs & Hr).
  destruct r as [a|e|c]; [by exists (Ok a), evs| |done].
  destruct (Hh e (tr ++ evs)) as (r' & evs' & -> & Hcs' & Hr').
  exists r', (evs ++ evs'). rewrite conversions_app, Hcs, Hcs', app_nil_r.
  by rewrite app_assoc.
Qed.

Lemma bind_ok {A B} (m : M A) (k : A → M B) (a : A) (tr tr' : list event) :
  m tr = (Ok a, tr') → bind m k tr = k a tr'.
Proof. intros H. unfold bind. by rewrite H. Qed.

Lemma for_each_cons {A S} (x : A) (l : list A) (body : A → S → M S)
    (s s' : S) (tr tr' : list event) :
  body x s tr = (Ok s', tr') →
  for_each (x :: l) body s tr = for_each l body s' tr'.
Proof. intros H. simpl. by apply bind_ok. Qed.

Create HintDb trace.
#[local] Hint Resolve logs_ret logs_raise logs_lift : trace.

Lemma logs_stat (w : World) (p : Path) : logs (stat w p) [].
Proof. apply (logs_call (EStat p)). Qed.

Lemma logs_read_bytes (w : World) (p : Path) : logs (read_bytes w p) [].
Proof. apply (logs_call (ERead p)). Qed.

Lemma logs_mkdir (w : World) (p : Path) : logs (mkdir w p) [].
Proof. apply (logs_call (EMkdir p)). Qed.

Lemma logs_write (w : World) (p : Path) (content : string) :
  logs (write w p content) [].
Proof. apply (logs_call (EWrite p content)). Qed.

Lemma logs_convert (w : World) (a : conv_arg) : logs (convert w a) [a].
Proof. apply (logs_call (EConvert a)). Qed.

Lemma logs_relative_to (p base : Path) : logs (relative_to p base) [].
Proof. unfold relative_to. destruct (strip_prefix base p); auto with trace. Qed.

Lemma logs_with_suffix (p : Path) (sfx : string) : logs (with_suffix p sfx) [].
Proof. unfold with_suffix. repeat case_match; auto with trace. Qed.

Lemma logs_export (t : tool) (fmt : string) (rendered : Rendered) :
  logs (export t fmt rendered) [].
Proof.
  unfold export.
  repeat case_match; auto with trace;
    (apply logs_bind; [auto with trace | intros; auto with trace]).
Qed.

#[local] Hint Resolve logs_stat logs_read_bytes logs_mkdir logs_write
  logs_relative_to logs_with_suffix logs_export : trace.

Ltac logs_steps :=
  repeat (apply logs_bind; [solve [auto with trace] | intros]);
  auto with trace.

Lemma logs_convert_folder_file (w : World) (t : tool) (fmt : string)
    (output_dir : Path) (source_name : string) (folder_path file_path : Path) :
  logs (convert_folder_file w t fmt output_dir source_name folder_path file_path)
       [ArgStr (path_str file_path)].
Proof.
  unfold convert_folder_file.
  apply logs_bind; [apply logs_convert | intros rendered]. logs_steps.
Qed.

Lemma logs_convert_url (w : World) (t : tool) (fmt : string)
    (output_dir : Path) (source_name url : string) :
  logs (convert_url w t fmt output_dir source_name url) [ArgStr url].
Proof.
  unfold convert_url.
  apply logs_bind; [apply logs_convert | intros rendered]. logs_steps.
Qed.

(** ** Paths *)

Lemma str_app_nil_r (s : string) : s +:+ "" = s.
Proof. induction s as [|c r IH]; [done | exact (f_equal (String c) IH)]. Qed.

Lemma str_app_assoc (a b c : string) : (a +:+ b) +:+ c = a +:+ (b +:+ c).
Proof. induction a as [|x a IH]; [done | exact (f_equal (String x) IH)]. Qed.

Lemma split_slash_plain (s cur : string) :
  str_contains "/" s = false → split_slash s cur = [cur +:+ s].
Proof.
  revert cur. induction s as [|c r IH]; intros cur; simpl.
  - intros _. by rewrite str_app_nil_r.
  - intros [Hc Hr]%orb_false_elim. rewrite Hc, IH by done.
    by rewrite str_app_assoc.
Qed.



Lemma strip_prefix_app (base r : Path) : strip_prefix base (base ++ r) = Some r.
Proof.
  induction base as [|b base IH]; simpl; [done|].
  by rewrite String.eqb_refl.
Qed.

Lemma relative_to_app (base r : Path) (tr : list event) :
  relative_to (base ++ r) base tr = (Ok r, tr).
Proof. unfold relative_to. by rewrite strip_prefix_app. Qed.

(** ** The file system snapshot *)

Lemma is_file_stat (w : World) (p : Path) :
  is_file w p = true →
  ∃ st, fs_stat w p = Some st ∧ st_is_file st = true ∧ size_of w p = st_size st.
Proof.
  unfold is_file, size_of. destruct (fs_stat w p) as [st|]; [|done].
  intros H. by exists st.
Qed.

Lemma exists_stat (w : World) (p : Path) :
  exists_ w p = true → ∃ st, fs_stat w p = Some st ∧ size_of w p = st_size st.
Proof.
  unfold exists_, size_of. destruct (fs_stat w p) as [st|]; [|done].
  intros _. by exists st.
Qed.

Lemma stat_Some (w : World) (p : Path) (st : stat_result) (tr : list event) :
  fs_stat w p = Some st → stat w p tr = (Ok st, tr ++ [EStat p]).
Proof. intros H. unfold stat, call. by rewrite H. Qed.

Lemma convertible_oversized (w : World) (t : tool) (p : Path) :
  convertible w t p = true → oversized w t p = false.
Proof.
  unfold convertible, oversized.
  destruct (candidate w t p), (too_large (size_of w p)); done.
Qed.

(** ** One iteration of the folder loop *)

Section FolderStep.
Variables (w : World) (t : tool) (fmt : string).
Variables (output_dir : Path) (source_name : string) (folder_path : Path).

Let step := folder_step w t fmt output_dir source_name folder_path.
Let attempt := convert_folder_file w t fmt output_dir source_name folder_path.

Lemma folder_step_not_candidate (file_path : Path) (cnt : counts)
    (tr : list event) :
  candidate w t file_path = false → step file_path cnt tr = (Ok cnt, tr).
Proof.
  intros H. unfold step, folder_step. destruct cnt as [[c f] s].
  unfold candidate in H. by rewrite H.
Qed.

Lemma folder_step_oversized (rel : Path) (c f s : nat) (tr : list event) :
  oversized w t (folder_path ++ rel) = true →
  step (folder_path ++ rel) (c, f, s) tr
  = (Ok (c, f, s + 1), tr ++ [EStat (folder_path ++ rel)]).
Proof.
  unfold oversized, candidate. intros [[Hf Hs]%andb_prop Hl]%andb_prop.
  destruct (is_file_stat _ _ Hf) as (st & Hst & _ & Hsz).
  unfold step, folder_step. rewrite Hf, Hs. simpl. unfold bind at 1.
  rewrite (stat_Some _ _ _ _ Hst), <- Hsz, Hl.
  by rewrite (bind_ok _ _ _ _ _ (relative_to_app _ _ _)).
Qed.

Lemma folder_step_attempt (rel : Path) (c f s : nat) (tr : list event) :
  convertible w t (folder_path ++ rel) = true →
  step (folder_path ++ rel) (c, f, s) tr
  = match attempt (folder_path ++ rel) (tr ++ [EStat (folder_path ++ rel)]) with
    | (Ok _, tr') => (Ok (c + 1, f, s), tr')
    | (Raise _, tr') => (Ok (c, f + 1, s), tr')
    | (Exit code, tr') => (Exit code, tr')
    end.
Proof.
  unfold convertible, candidate.
  intros [[Hf Hs]%andb_prop Hl%negb_true_iff]%andb_prop.
  destruct (is_file_stat _ _ Hf) as (st & Hst & _ & Hsz).
  unfold step, folder_step. rewrite Hf, Hs. simpl. unfold bind at 1.
  rewrite (stat_Some _ _ _ _ Hst), <- Hsz, Hl.
  rewrite (bind_ok _ _ _ _ _ (relative_to_app _ _ _)).
  unfold try_except, bind, attempt.
  by destruct (convert_folder_file _ _ _ _ _ _ _ _) as [[?|?|?] ?].
Qed.

Lemma folder_step_spec (rel : Path) (c f s : nat) (tr : list event) :
  ∃ c' f' s' evs,
    step (folder_path ++ rel) (c, f, s) tr = (Ok (c', f', s'), tr ++ evs)
    ∧ conversions evs
      = (if convertible w t (folder_path ++ rel)
         then [ArgStr (path_str (folder_path ++ rel))] else [])
    ∧ s' = s + (if oversized w t (folder_path ++ rel) then 1 else 0)
    ∧ c' + f' = c + f + (if convertible w t (folder_path ++ rel) then 1 else 0)
    ∧ (c ≤ c')%nat ∧ (f ≤ f')%nat.
Proof.
  set (p := folder_path ++ rel).
  destruct (candidate w t p) eqn:Hc.
  - destruct (too_large (size_of w p)) eqn:Hl.
    + assert (Ho : oversized w t p = true) by (unfold oversized; by rewrite Hc, Hl).
      assert (Hn : convertible w t p = false) by (unfold convertible; by rewrite Hc, Hl).
      exists c, f, (s + 1), [EStat p]. rewrite Ho, Hn.
      split; [by apply folder_step_oversized|]. repeat split; lia.
    + assert (Ho : oversized w t p = false) by (unfold oversized; by rewrite Hc, Hl).
      assert (Hn : convertible w t p = true) by (unfold convertible; by rewrite Hc, Hl).
      subst p. rewrite folder_step_attempt by done. rewrite Ho, Hn.
      destruct (logs_convert_folder_file w t fmt output_dir source_name
                  folder_path (folder_path ++ rel)
                  (tr ++ [EStat (folder_path ++ rel)]))
        as (r & evs & Hrun & Hcs & Hr).
      fold attempt in Hrun. rewrite Hrun, <- app_assoc.
      destruct r as [[]|e|code]; [| |done].
      * exists (c + 1), f, s, ([EStat (folder_path ++ rel)] ++ evs).
        rewrite conversions_app, Hcs. repeat split; (done || lia).
      * exists c, (f + 1), s, ([EStat (folder_path ++ rel)] ++ evs).
        rewrite conversions_app, Hcs. repeat split; (done || lia).
  - assert (Ho : oversized w t p = false) by (unfold oversized; by rewrite Hc).
    assert (Hn : convertible w t p = false) by (unfold convertible; by rewrite Hc).
    exists c, f, s, []. rewrite Ho, Hn, app_nil_r.
    split; [by apply folder_step_not_candidate|]. repeat split; lia.
Qed.
End FolderStep.

(** ** The folder loop *)

Section FolderLoop.
Variables (w : World) (t : tool) (fmt : string).
Variables (output_dir : Path) (source_name : string) (folder_path : Path).

Lemma folder_loop_spec (rels : list Path) (c f s : nat) (tr : list event) :
  let l := List.map (λ r, folder_path ++ r) rels in
  ∃ c' f' s' evs,
    for_each l (folder_step w t fmt output_dir source_name folder_path)
             (c, f, s) tr = (Ok (c', f', s'), tr ++ evs)
    ∧ conversions evs
      = List.map (λ p, ArgStr (path_str p)) (List.filter (convertible w t) l)
    ∧ s' = s + List.length (List.filter (oversized w t) l)
    ∧ c' + f' = c + f + List.length (List.filter (convertible w t) l)
    ∧ (c ≤ c')%nat ∧ (f ≤ f')%nat.
Proof.
  revert c f s tr. induction rels as [|rel rels IH]; intros c f s tr.
  - exists c, f, s, []. rewrite app_nil_r. simpl. unfold ret. repeat split; lia.
  - destruct (folder_step_spec w t fmt output_dir source_name folder_path
                rel c f s tr)
      as (c1 & f1 & s1 & evs1 & Hrun & Hcs & Hs & Hcf & Hc & Hf).
    destruct (IH c1 f1 s1 (tr ++ evs1))
      as (c2 & f2 & s2 & evs2 & Hrun2 & Hcs2 & Hs2 & Hcf2 & Hc2 & Hf2).
    exists c2, f2, s2, (evs1 ++ evs2).
    cbn [List.map]. rewrite (for_each_cons _ _ _ _ _ _ _ Hrun), Hrun2, <- app_assoc.
    rewrite conversions_app, Hcs, Hcs2. cbn [List.filter].
    destruct (convertible w t (folder_path ++ rel)),
             (oversized w t (folder_path ++ rel)); simpl;
      repeat split; (done || lia).
Qed.
End FolderLoop.

Lemma process_folder_source_missing (w : World) (t : tool) (fmt : string)
    (cfg : source_config) (output_dir : Path) (tr : list event) :
  exists_ w (Path_of_str (src_path cfg)) = false →
  process_folder_source w t fmt cfg output_dir tr = (Ok (0, 0, 0), tr).
Proof. intros H. unfold process_folder_source. by rewrite H. Qed.

Lemma process_folder_source_spec (w : World) (t : tool) (fmt : string)
    (cfg : source_config) (output_dir : Path) (tr : list event) :
  exists_ w (Path_of_str (src_path cfg)) = true →
  ∃ c f s evs,
    process_folder_source w t fmt cfg output_dir tr = (Ok (c, f, s), tr ++ evs)
    ∧ conversions evs
      = List.map (λ p, ArgStr (path_str p))
                 (List.filter (convertible w t) (file_iterator w cfg))
    ∧ s = List.length (List.filter (oversized w t) (file_iterator w cfg))
    ∧ c + f = List.length (List.filter (convertible w t) (file_iterator w cfg)).
Proof.
  intros H. unfold process_folder_source. rewrite H. simpl.
  unfold file_iterator, rglob, glob.
  destruct (default true (src_recursive cfg));
    (edestruct folder_loop_spec as (c & f & s & evs & Hrun & Hcs & Hs & Hcf & _);
     exists c, f, s, evs; rewrite Hrun; repeat split; [exact Hcs|exact Hs|exact Hcf]).
Qed.

(** ** Return values *)

Lemma returns_ret {A} (a : A) (P : A → Prop) : P a → returns (ret a) P.
Proof. intros H tr. exists (Ok a), []. by rewrite app_nil_r. Qed.

Lemma returns_logs {A} (m : M A) (cs : list conv_arg) :
  logs m cs → returns m (λ _, True).
Proof.
  intros H tr. destruct (H tr) as (r & evs & -> & _ & Hr).
  exists r, evs. by destruct r.
Qed.

Lemma returns_bind {A B} (m : M A) (k : A → M B) (P : B → Prop) :
  returns m (λ _, True) → (∀ a, returns (k a) P) → returns (bind m k) P.
Proof.
  intros Hm Hk tr. unfold bind.
  destruct (Hm tr) as (r & evs & -> & Hr).
  destruct r as [a|e|c]; [|by exists (Raise e), evs|done].
  destruct (Hk a (tr ++ evs)) as (r' & evs' & -> & Hr').
  exists r', (evs ++ evs'). by rewrite app_assoc.
Qed.

Lemma total_ret {A} (a : A) : total (ret a).
Proof. intros tr. exists a, []. by rewrite app_nil_r. Qed.

Lemma total_try {A} (body : M A) (handler : exn → M A) (P : A → Prop) :
  returns body P → (∀ e, total (handler e)) → total (try_except body handler).
Proof.
  intros Hb Hh tr. unfold try_except.
  destruct (Hb tr) as (r & evs & -> & Hr).
  destruct r as [a|e|c]; [by exists a, evs| |done].
  destruct (Hh e (tr ++ evs)) as (a & evs' & ->).
  exists a, (evs ++ evs'). by rewrite app_assoc.
Qed.

Lemma total_for_each {A S} (l : list A) (body : A → S → M S) (s : S) :
  (∀ x s', total (body x s')) → total (for_each l body s).
Proof.
  intros Hb. revert s. induction l as [|x l IH]; intros s tr; simpl.
  - apply total_ret.
  - unfold bind. destruct (Hb x s tr) as (s1 & evs1 & ->).
    destruct (IH s1 (tr ++ evs1)) as (s2 & evs2 & ->).
    exists s2, (evs1 ++ evs2). by rewrite app_assoc.
Qed.

Ltac returns_steps :=
  repeat (apply returns_bind;
          [solve [eapply returns_logs; auto with trace] | intros]).

Lemma single_file_size_logs (w : World) (t : tool) (file_path : Path) :
  logs (single_file_size w t file_path) [].
Proof.
  unfold single_file_size. destruct t; auto with trace;
    (apply logs_bind; [auto with trace | intros; auto with trace]).
Qed.

#[local] Hint Resolve single_file_size_logs logs_convert : trace.

Lemma write_single_file_logs (w : World) (t : tool) (fmt : string)
    (output_dir : Path) (source_name : string) (file_path : Path) :
  logs (write_single_file w t fmt output_dir source_name file_path)
       [single_file_arg t file_path].
Proof.
  unfold write_single_file.
  apply logs_bind; [apply logs_convert | intros rendered]. logs_steps.
  apply logs_bind; [|auto with trace].
  destruct t; auto with trace;
    (apply logs_bind; [auto with trace | intros; auto with trace]).
Qed.

Lemma write_single_file_returns (w : World) (t : tool) (fmt : string)
    (output_dir : Path) (source_name : string) (file_path : Path) :
  returns (write_single_file w t fmt output_dir source_name file_path)
          (λ cnt, cnt = (1, 0, 0)).
Proof.
  unfold write_single_file. returns_steps.
  apply returns_bind; [|intros; by apply returns_ret].
  destruct t; try (by apply returns_ret);
    (apply returns_bind;
     [eapply returns_logs; auto with trace | intros; by apply returns_ret]).
Qed.

Lemma convert_single_file_returns (w : World) (t : tool) (fmt : string)
    (output_dir : Path) (source_name : string) (file_path : Path) :
  returns (convert_single_file w t fmt output_dir source_name file_path)
          (λ cnt, cnt = (1, 0, 0) ∨ cnt = (0, 0, 1)).
Proof.
  unfold convert_single_file. returns_steps.
  destruct (too_large a); [apply returns_ret; by right|].
  intros tr.
  destruct (write_single_file_returns w t fmt output_dir source_name
              file_path tr) as (r & evs & Hrun & Hr).
  exists r, evs. split; [done|]. destruct r; auto.
Qed.

Lemma convert_url_returns (w : World) (t : tool) (fmt : string)
    (output_dir : Path) (source_name url : string) :
  returns (convert_url w t fmt output_dir source_name url)
          (λ cnt, cnt = (1, 0, 0)).
Proof. unfold convert_url. returns_steps. by apply returns_ret. Qed.

(** ** Counting calls *)

Lemma count_occ_map_filter_once {A} (g : A → string) (P : A → bool)
    (l : list A) (x : A) :
  List.NoDup (List.map g l) → In x l → P x = true →
  count_occ conv_arg_eq_dec
            (List.map (λ p, ArgStr (g p)) (List.filter P l)) (ArgStr (g x)) = 1.
Proof.
  induction l as [|a l IH]; intros Hnd Hin HP; [done|].
  cbn [List.map] in Hnd. apply List.NoDup_cons_iff in Hnd as [Hnotin Hnd].
  assert (Hzero : ∀ l', (∀ y, In y l' → In y l) →
            count_occ conv_arg_eq_dec
              (List.map (λ p, ArgStr (g p)) l') (ArgStr (g a)) = 0).
  { intros l' Hsub. apply count_occ_not_In. intros Hin'.
    apply in_map_iff in Hin' as (y & Hy & Hyin). apply Hnotin.
    apply in_map_iff. exists y. split; [congruence | by apply Hsub]. }
  cbn [List.filter]. destruct Hin as [->|Hin].
  - rewrite HP. cbn [List.map]. rewrite (count_occ_cons_eq conv_arg_eq_dec _ eq_refl).
    rewrite Hzero; [done|]. intros y Hy. by apply filter_In in Hy as [? _].
  - assert (Hne : g a ≠ g x).
    { intros Heq. apply Hnotin. rewrite Heq. by apply in_map. }
    destruct (P a).
    + cbn [List.map]. rewrite (count_occ_cons_neq conv_arg_eq_dec); [|congruence]. by apply IH.
    + by apply IH.
Qed.

(** ** Single-file and URL sources *)



Section FileSource.
Variables (w : World) (t : tool) (fmt : string).
Variables (cfg : source_config) (output_dir : Path).

Let file_path := Path_of_str (src_path cfg).
Let source_name := default (stem file_path) (src_name cfg).

Lemma process_file_source_missing (tr : list event) :
  exists_ w file_path = false →
  process_file_source w t fmt cfg output_dir tr = (Ok (0, 1, 0), tr).
Proof. intros H. unfold process_file_source. fold file_path. by rewrite H. Qed.

Lemma process_file_source_unsupported (tr : list event) :
  supported t file_path = false →
  process_file_source w t fmt cfg output_dir tr = (Ok (0, 1, 0), tr).
Proof.
  intros H. unfold process_file_source. fold file_path. rewrite H.
  by destruct (exists_ w file_path).
Qed.

Lemma process_file_source_attempt (tr : list event) :
  exists_ w file_path = true → supported t file_path = true →
  process_file_source w t fmt cfg output_dir tr
  = match convert_single_file w t fmt output_dir source_name file_path tr with
    | (Raise _, tr') => (Ok (0, 1, 0), tr')
    | r => r
    end.
Proof.
  intros He Hs. unfold process_file_source. fold file_path source_name.
  by rewrite He, Hs.
Qed.

Lemma process_file_source_cases (tr : list event) :
  ∃ r evs,
    process_file_source w t fmt cfg output_dir tr = (Ok r, tr ++ evs)
    ∧ (r = (1, 0, 0) ∨ r = (0, 1, 0) ∨ r = (0, 0, 1)).
Proof.
  destruct (exists_ w file_path) eqn:He.
  2: { exists (0, 1, 0), []. rewrite app_nil_r.
       split; [by apply process_file_source_missing | auto]. }
  destruct (supported t file_path) eqn:Hs.
  2: { exists (0, 1, 0), []. rewrite app_nil_r.
       split; [by apply process_file_source_unsupported | auto]. }
  rewrite process_file_source_attempt by done.
  destruct (convert_single_file_returns w t fmt output_dir source_name
              file_path tr) as (r & evs & -> & Hr).
  destruct r as [cnt|e|code]; [|by exists (0, 1, 0), evs; auto|done].
  exists cnt, evs. split; [done|]. destruct Hr; auto.
Qed.


End FileSource.

Lemma process_url_source_cases (w : World) (t : tool) (fmt : string)
    (cfg : source_config) (output_dir : Path) (tr : list event) :
  ∃ r evs,
    process_url_source w t fmt cfg output_dir tr = (Ok r, tr ++ evs)
    ∧ (r = (1, 0, 0) ∨ r = (0, 1, 0)).
Proof.
  unfold process_url_source, try_except.
  destruct (convert_url_returns w t fmt output_dir
              (default "web_content" (src_name cfg)) (src_path cfg) tr)
    as (r & evs & -> & Hr).
  destruct r as [cnt|e|code]; [|by exists (0, 1, 0), evs; auto|done].
  exists cnt, evs. auto.
Qed.

(** ** The loop over the sources *)

Lemma run_handler_total (w : World) (t : tool) (fmt : string) (h : handler)
    (cfg : source_config) (output_dir : Path) :
  total (run_handler w t fmt h cfg output_dir).
Proof.
  intros tr. destruct h; simpl.
  - destruct (exists_ w (Path_of_str (src_path cfg))) eqn:He.
    + destruct (process_folder_source_spec w t fmt cfg output_dir tr He)
        as (c & f & s & evs & -> & _). by exists (c, f, s), evs.
    + rewrite process_folder_source_missing by done.
      exists (0, 0, 0), []. by rewrite app_nil_r.
  - destruct (process_file_source_cases w t fmt cfg output_dir tr)
      as (r & evs & -> & _). by exists r, evs.
  - destruct (process_url_source_cases w t fmt cfg output_dir tr)
      as (r & evs & -> & _). by exists r, evs.
Qed.

Lemma source_step_total (w : World) (t : tool) (fmt : string)
    (output_dir : Path) (cfg : source_config) (totals : counts) :
  total (source_step w t fmt output_dir cfg totals).
Proof.
  intros tr. unfold source_step. destruct totals as [[tc tf] ts].
  destruct (dispatch t (src_type cfg)) as [h|]; [|apply total_ret].
  destruct (run_handler_total w t fmt h cfg output_dir tr)
    as ([[c f] s] & evs & Hrun).
  rewrite (bind_ok _ _ _ _ _ Hrun). unfold ret. by eexists _, evs.
Qed.

Lemma convert_from_sources_total (w : World) (t : tool) (fmt : string)
    (sources : list source_config) (output_dir : Path) :
  total (convert_from_sources w t fmt sources output_dir).
Proof. apply total_for_each. intros. apply source_step_total. Qed.

Lemma dispatch_folder (t : tool) : dispatch t (Some "folder") = Some Folder.
Proof. by destruct t. Qed.

Lemma dispatch_file (t : tool) : dispatch t (Some "file") = Some File.
Proof. by destruct t. Qed.

Lemma dispatch_url (t : tool) :
  dispatch t (Some "url") = if decide (t = pymupdf) then None else Some Url.
Proof. by destruct t. Qed.

Lemma dispatch_other (t : tool) (source_type : option string) :
  source_type ≠ Some "folder" → source_type ≠ Some "file" →
  t = pymupdf ∨ source_type ≠ Some "url" →
  dispatch t source_type = None.
Proof.
  intros Hfolder Hfile Hurl. unfold dispatch.
  rewrite !decide_False by done.
  destruct Hurl as [-> | Hurl]; [done|].
  rewrite decide_False by done. by destruct t.
Qed.

Lemma source_step_dispatched (w : World) (t : tool) (fmt : string)
    (output_dir : Path) (cfg : source_config) (h : handler)
    (tc tf ts c f s : nat) (tr tr' : list event) :
  dispatch t (src_type cfg) = Some h →
  run_handler w t fmt h cfg output_dir tr = (Ok (c, f, s), tr') →
  source_step w t fmt output_dir cfg (tc, tf, ts) tr
  = (Ok (tc + c, tf + f, ts + s), tr').
Proof.
  intros Hd Hrun. unfold source_step. rewrite Hd.
  by rewrite (bind_ok _ _ _ _ _ Hrun).
Qed.

Lemma source_step_undispatched (w : World) (t : tool) (fmt : string)
    (output_dir : Path) (cfg : source_config) (totals : counts)
    (tr : list event) :
  dispatch t (src_type cfg) = None →
  source_step w t fmt output_dir cfg totals tr = (Ok totals, tr).
Proof.
  intros Hd. unfold source_step. rewrite Hd. by destruct totals as [[? ?] ?].
Qed.

Lemma add_counts_assoc (a b c : counts) :
  add_counts (add_counts a b) c = add_counts a (add_counts b c).
Proof.
  destruct a as [[? ?] ?], b as [[? ?] ?], c as [[? ?] ?].
  unfold add_counts; simpl. f_equal; [f_equal|]; lia.
Qed.

Lemma add_counts_zero (a : counts) : add_counts a (0, 0, 0) = a.
Proof.
  destruct a as [[? ?] ?]. unfold add_counts; simpl. f_equal; [f_equal|]; lia.
Qed.

(** The running totals of the loop are the sum of the triples returned. *)
Lemma source_loop_sums (w : World) (t : tool) (fmt : string)
    (output_dir : Path) (sources : list source_config) (acc : counts)
    (tr : list event) :
  ∃ rs evs,
    source_results w t fmt sources output_dir tr = (Ok rs, tr ++ evs)
    ∧ for_each sources (source_step w t fmt output_dir) acc tr
      = (Ok (add_counts acc (sum_counts rs)), tr ++ evs).
Proof.
  revert acc tr. induction sources as [|cfg rest IH]; intros acc tr.
  - exists [], []. simpl. unfold ret. by rewrite app_nil_r, add_counts_zero.
  - cbn [source_results].
    destruct (dispatch t (src_type cfg)) as [h|] eqn:Hd.
    + destruct (run_handler_total w t fmt h cfg output_dir tr)
        as ([[c f] s] & evs1 & Hrun).
      destruct acc as [[tc tf] ts].
      pose proof (source_step_dispatched w t fmt output_dir cfg h
                    tc tf ts c f s tr _ Hd Hrun) as Hstep.
      destruct (IH (tc + c, tf + f, ts + s) (tr ++ evs1))
        as (rs & evs2 & Hrs & Hloop).
      exists ((c, f, s) :: rs), (evs1 ++ evs2).
      rewrite (bind_ok _ _ _ _ _ Hrun), (bind_ok _ _ _ _ _ Hrs).
      rewrite (for_each_cons _ _ _ _ _ _ _ Hstep), Hloop, app_assoc.
      split; [done|]. do 2 f_equal.
      change (tc + c, tf + f, ts + s) with (add_counts (tc, tf, ts) (c, f, s)).
      by rewrite add_counts_assoc.
    + destruct (IH acc tr) as (rs & evs & Hrs & Hloop).
      exists rs, evs. split; [done|].
      by rewrite (for_each_cons _ _ _ _ _ _ _
                    (source_step_undispatched w t fmt output_dir cfg acc tr Hd)).
Qed.

Lemma add_counts_zero_l (a : counts) : add_counts (0, 0, 0) a = a.
Proof. by destruct a as [[? ?] ?]. Qed.

(** ** [main] *)

Lemma output_dir_parts (t : tool) :
  truediv (Path_of_str (tool_dir t)) OUTPUT_DIR_NAME
  = [tool_dir t; OUTPUT_DIR_NAME].
Proof. by destruct t. Qed.

Lemma main_run (w : World) (t : tool) (fmt : string)
    (SOURCES : list source_config) (tr : list event) :
  let output_dir := [tool_dir t; OUTPUT_DIR_NAME] in
  let tr0 := tr ++ [EMkdir output_dir] in
  SOURCES ≠ [] →
  os_mkdir w tr0 output_dir = inr tt →
  t = pymupdf ∨ lib_setup w = inr tt →
  ∃ rs evs,
    source_results w t fmt SOURCES output_dir tr0 = (Ok rs, tr0 ++ evs)
    ∧ main w t fmt SOURCES tr
      = (Ok {| total_processed :=
                 (sum_counts rs).1.1 + (sum_counts rs).1.2 + (sum_counts rs).2;
               converted_count := (sum_counts rs).1.1;
               failed_count := (sum_counts rs).1.2;
               skipped_count := (sum_counts rs).2 |}, tr0 ++ evs).
Proof.
  intros output_dir tr0 Hne Hmk Hsetup.
  destruct (source_loop_sums w t fmt output_dir SOURCES (0, 0, 0) tr0)
    as (rs & evs & Hrs & Hloop).
  exists rs, evs. split; [done|].
  rewrite add_counts_zero_l in Hloop.
  destruct SOURCES as [|cfg rest]; [done|].
  unfold main, setup_output_directory. rewrite output_dir_parts.
  unfold mkdir, call, bind at 1 2.
  fold output_dir tr0. rewrite Hmk. unfold ret at 1.
  assert (Hs : setup_converter w t tr0 = (Ok tt, tr0)).
  { unfold setup_converter. destruct Hsetup as [-> | ->]; [done|by destruct t]. }
  rewrite (bind_ok _ _ _ _ _ Hs).
  unfold convert_from_sources. rewrite (bind_ok _ _ _ _ _ Hloop).
  by destruct (sum_counts rs) as [[c f] s].
Qed.

Lemma main_Ok_inv (w : World) (t : tool) (fmt : string)
    (SOURCES : list source_config) (tr tr' : list event) (rep : report) :
  main w t fmt SOURCES tr = (Ok rep, tr') →
  SOURCES ≠ []
  ∧ os_mkdir w (tr ++ [EMkdir [tool_dir t; OUTPUT_DIR_NAME]])
             [tool_dir t; OUTPUT_DIR_NAME] = inr tt
  ∧ (t = pymupdf ∨ lib_setup w = inr tt).
Proof.
  destruct SOURCES as [|cfg rest]; [done|].
  unfold main, setup_output_directory. rewrite output_dir_parts.
  unfold mkdir, call, bind at 1 2.
  destruct (os_mkdir w _ _) as [e|u]; [done|]. destruct u. unfold ret at 1.
  unfold bind at 1, setup_converter.
  destruct t; try (intros _; split; [done|]; split; [done|]; by left);
    (destruct (lib_setup w) as [e|u]; [done|]; destruct u;
     intros _; split; [done|]; split; [done|]; by right).
Qed.

(** ** Successful runs, read backwards *)

Lemma bind_Ok_inv {A B} (m : M A) (k : A → M B) (b : B) (tr tr' : list event) :
  bind m k tr = (Ok b, tr') →
  ∃ a tr1, m tr = (Ok a, tr1) ∧ k a tr1 = (Ok b, tr').
Proof.
  unfold bind. destruct (m tr) as [[a|e|c] tr1]; [|done..].
  intros H. by exists a, tr1.
Qed.

Lemma ret_Ok_inv {A} (a b : A) (tr tr' : list event) :
  ret a tr = (Ok b, tr') → b = a ∧ tr' = tr.
Proof. unfold ret. intros H. by simplify_eq. Qed.

Lemma call_Ok_inv {A} (ev : event) (answer : list event → exn + A) (a : A)
    (tr tr' : list event) :
  call ev answer tr = (Ok a, tr') →
  tr' = tr ++ [ev] ∧ answer (tr ++ [ev]) = inr a.
Proof.
  unfold call. destruct (answer (tr ++ [ev])); intros H; by simplify_eq.
Qed.

Lemma convert_Ok_inv (w : World) (a : conv_arg) (rendered : Rendered)
    (tr tr' : list event) :
  convert w a tr = (Ok rendered, tr') →
  tr' = tr ++ [EConvert a] ∧ lib_convert w (tr ++ [EConvert a]) a = inr rendered.
Proof. apply call_Ok_inv. Qed.

Lemma mkdir_Ok_inv (w : World) (p : Path) (u : unit) (tr tr' : list event) :
  mkdir w p tr = (Ok u, tr') → tr' = tr ++ [EMkdir p].
Proof. unfold mkdir. intros H. apply call_Ok_inv in H. by destruct H. Qed.

Lemma write_Ok_inv (w : World) (p : Path) (content : string) (u : unit)
    (tr tr' : list event) :
  write w p content tr = (Ok u, tr') → tr' = tr ++ [EWrite p content].
Proof. unfold write. intros H. apply call_Ok_inv in H. by destruct H. Qed.

Lemma stat_Ok_inv (w : World) (p : Path) (st : stat_result)
    (tr tr' : list event) :
  stat w p tr = (Ok st, tr') → tr' = tr ++ [EStat p].
Proof. unfold stat. intros H. apply call_Ok_inv in H. by destruct H. Qed.

Lemma export_Ok_inv (t : tool) (fmt : string) (rendered : Rendered)
    (ce : string * string) (tr tr' : list event) :
  export t fmt rendered tr = (Ok ce, tr') →
  tr' = tr ∧ ce.2 = output_extension t fmt.
Proof.
  unfold export, output_extension, bind, lift, ret, raise.
  destruct t; try destruct (decide (fmt = "markdown"));
    try destruct (export_markdown rendered);
    intros H; by simplify_eq.
Qed.

Lemma length_str_drop (i : nat) (s : string) :
  String.length (str_drop i s) = String.length s - i.
Proof.
  revert s. induction i as [|i IH]; intros s; destruct s; simpl; auto.
Qed.

Lemma with_suffix_name (n sfx : string) :
  (if suffix_of n =? "" then n +:+ sfx
   else str_take (String.length n - String.length (suffix_of n)) n +:+ sfx)
  = stem_of n +:+ sfx.
Proof.
  unfold suffix_of, stem_of. destruct (rfind "." n) as [i|]; [|done].
  destruct ((0 <? i)%nat && (i + 1 <? String.length n)%nat) eqn:Hc; [|done].
  apply andb_prop in Hc as [_ Hi%Nat.ltb_lt].
  assert (Hlen : String.length (str_drop i n) = String.length n - i)
    by apply length_str_drop.
  destruct (str_drop i n =? "") eqn:He.
  - apply String.eqb_eq in He. rewrite He in Hlen. simpl in Hlen. lia.
  - rewrite Hlen. do 2 f_equal. lia.
Qed.

Lemma with_suffix_Ok_inv (p : Path) (sfx : string) (q : Path)
    (tr tr' : list event) :
  with_suffix p sfx tr = (Ok q, tr') →
  tr' = tr ∧ q = parent p ++ [stem p +:+ sfx].
Proof.
  unfold with_suffix, raise, ret.
  destruct (str_contains "/" sfx); [done|].
  destruct (negb (sfx =? "") && negb (startswith_dot sfx) || (sfx =? "."));
    [done|].
  destruct (name p =? ""); [done|].
  intros Heq. simplify_eq.
  split; [done|]. unfold suffix, stem. by rewrite with_suffix_name.
Qed.

Lemma single_file_size_writes (w : World) (t : tool) (p : Path)
    (r : result N) (tr tr' : list event) :
  single_file_size w t p tr = (r, tr') →
  ∃ evs, tr' = tr ++ evs ∧ writes evs = [].
Proof.
  unfold single_file_size, read_bytes, stat, bind, call, ret.
  destruct t, (fs_stat w p) as [st|]; try destruct (st_is_file st);
    intros H; simplify_eq; by eexists [_].
Qed.

Lemma convert_folder_file_Ok (w : World) (t : tool) (fmt : string)
    (output_dir : Path) (source_name : string) (folder_path rel : Path)
    (tr tr' : list event) :
  convert_folder_file w t fmt output_dir source_name folder_path
                      (folder_path ++ rel) tr = (Ok tt, tr') →
  ∃ evs,
    tr' = tr ++ evs
    ∧ writes evs
      = [joinpath (truediv output_dir source_name)
                  (parent rel ++ [stem rel +:+ output_extension t fmt])].
Proof.
  unfold convert_folder_file. intros H.
  apply bind_Ok_inv in H as (rendered & tr1 & (-> & _)%convert_Ok_inv & H1).
  apply bind_Ok_inv in H1 as (ce & tr2 & (-> & Hext)%export_Ok_inv & H2).
  rewrite (bind_ok _ _ _ _ _ (relative_to_app folder_path rel _)) in H2.
  apply bind_Ok_inv in H2 as (renamed & tr3 & (-> & ->)%with_suffix_Ok_inv & H3).
  apply bind_Ok_inv in H3 as (? & tr4 & ->%mkdir_Ok_inv & H4).
  apply bind_Ok_inv in H4 as (? & tr5 & ->%write_Ok_inv & H5).
  apply bind_Ok_inv in H5 as (? & tr6 & ->%stat_Ok_inv & H6).
  apply ret_Ok_inv in H6 as [_ ->].
  eexists [_; _; _; _]. rewrite <- !app_assoc. split; [reflexivity|].
  by rewrite Hext.
Qed.

Lemma write_single_file_Ok (w : World) (t : tool) (fmt : string)
    (output_dir : Path) (source_name : string) (file_path : Path)
    (cnt : counts) (tr tr' : list event) :
  write_single_file w t fmt output_dir source_name file_path tr = (Ok cnt, tr') →
  ∃ evs,
    tr' = tr ++ evs
    ∧ writes evs
      = [truediv (truediv output_dir "single_files")
                 (source_name +:+ output_extension t fmt)].
Proof.
  unfold write_single_file. intros H.
  apply bind_Ok_inv in H as (rendered & tr1 & (-> & _)%convert_Ok_inv & H1).
  apply bind_Ok_inv in H1 as (ce & tr2 & (-> & Hext)%export_Ok_inv & H2).
  apply bind_Ok_inv in H2 as (? & tr4 & ->%mkdir_Ok_inv & H3).
  apply bind_Ok_inv in H3 as (? & tr5 & ->%write_Ok_inv & H4).
  apply bind_Ok_inv in H4 as (? & tr6 & Hstat & H5).
  apply ret_Ok_inv in H5 as [_ ->]. rewrite <- Hext.
  destruct t;
    first [ apply bind_Ok_inv in Hstat as (? & tr7 & ->%stat_Ok_inv & Hret);
            apply ret_Ok_inv in Hret as [_ ->];
            eexists [_; _; _; _]
          | apply ret_Ok_inv in Hstat as [_ ->];
            eexists [_; _; _] ];
    rewrite <- !app_assoc; (split; [reflexivity|done]).
Qed.

Lemma convert_url_Ok (w : World) (t : tool) (fmt : string)
    (output_dir : Path) (source_name url : string)
    (cnt : counts) (tr tr' : list event) :
  convert_url w t fmt output_dir source_name url tr = (Ok cnt, tr') →
  ∃ evs,
    tr' = tr ++ evs
    ∧ writes evs
      = [truediv (truediv output_dir "urls")
                 (source_name +:+ output_extension t fmt)].
Proof.
  unfold convert_url. intros H.
  apply bind_Ok_inv in H as (rendered & tr1 & (-> & _)%convert_Ok_inv & H1).
  apply bind_Ok_inv in H1 as (ce & tr2 & (-> & Hext)%export_Ok_inv & H2).
  apply bind_Ok_inv in H2 as (? & tr4 & ->%mkdir_Ok_inv & H3).
  apply bind_Ok_inv in H3 as (? & tr5 & ->%write_Ok_inv & H4).
  apply ret_Ok_inv in H4 as [_ ->]. rewrite <- Hext.
  eexists [_; _; _]. rewrite <- !app_assoc. split; [reflexivity|done].
Qed.

(** * The claims *)

(** C1.  A folder source whose path exists is traversed once.  The
    conversion calls it makes are, in the order of the traversal, one
    call per yielded entry that is a regular file with an allow-listed
    lowercased extension and a size at or below the limit, and no other
    call; so when the traversal yields every path once, each such file
    gets exactly one conversion call. *)
Theorem folder_converts_each_eligible_file_once (w : World) (t : tool)
    (fmt : string) (cfg : source_config) (output_dir : Path) (tr : list event) :
  exists_ w (Path_of_str (src_path cfg)) = true →
  ∃ cnt evs,
    process_folder_source w t fmt cfg output_dir tr = (Ok cnt, tr ++ evs)
    ∧ conversions evs
      = List.map (λ p, ArgStr (path_str p))
                 (List.filter (convertible w t) (file_iterator w cfg))
    ∧ (NoDup (List.map path_str (file_iterator w cfg)) →
       ∀ file_path,
         file_path ∈ file_iterator w cfg →
         convertible w t file_path = true →
         count_occ conv_arg_eq_dec (conversions evs)
                   (ArgStr (path_str file_path)) = 1).
Proof.
  intros Hex.
  destruct (process_folder_source_spec w t fmt cfg output_dir tr Hex)
    as (c & f & s & evs & Hrun & Hcs & _).
  exists (c, f, s), evs. split; [done|]. split; [done|].
  intros Hnd file_path Hin Hconv. rewrite Hcs.
  apply count_occ_map_filter_once; [|by apply list_elem_of_In|done].
  by apply NoDup_ListNoDup.
Qed.

Lemma folder_converts_each_eligible_file_once_witness :
  ∃ cnt evs,
    process_folder_source sample_world docling OUTPUT_FORMAT
      (folder_source "docs") ["docling"; "output"] [] = (Ok cnt, evs)
    ∧ conversions evs = [ArgStr "docs/a.pdf"; ArgStr "docs/sub/b.html"]
    ∧ count_occ conv_arg_eq_dec (conversions evs) (ArgStr "docs/a.pdf") = 1.
Proof.
  destruct (folder_converts_each_eligible_file_once sample_world docling
              OUTPUT_FORMAT (folder_source "docs") ["docling"; "output"] []
              eq_refl)
    as (cnt & evs & Hrun & Hcs & Honce).
  exists cnt, evs. split; [exact Hrun|]. split; [exact Hcs|].
  apply (Honce ltac:(refine (bool_decide_unpack _ _); vm_compute; exact I)
               ["docs"; "a.pdf"]).
  - refine (bool_decide_unpack _ _). vm_compute. exact I.
  - reflexivity.
Defined.









(** C5.  A run that reaches its summary reports a total processed count
    equal to converted + failed + skipped, and the three figures are the
    componentwise sums of the triples that the per-source functions
    returned for the sources, taken in order.  The run reaches its
    summary whenever the source list is not empty, the output directory
    can be created and the converter can be set up; otherwise it ends
    before any source is processed. *)
Theorem total_processed_is_sum_of_counts (w : World) (t : tool) (fmt : string)
    (SOURCES : list source_config) (tr : list event) :
  let output_dir := [tool_dir t; OUTPUT_DIR_NAME] in
  (∀ rep tr',
     main w t fmt SOURCES tr = (Ok rep, tr') →
     total_processed rep
     = converted_count rep + failed_count rep + skipped_count rep
     ∧ ∃ rs,
         source_results w t fmt SOURCES output_dir (tr ++ [EMkdir output_dir])
         = (Ok rs, tr')
         ∧ (converted_count rep, failed_count rep, skipped_count rep)
           = sum_counts rs)
  ∧ (SOURCES ≠ [] →
     os_mkdir w (tr ++ [EMkdir output_dir]) output_dir = inr tt →
     t = pymupdf ∨ lib_setup w = inr tt →
     ∃ rep tr', main w t fmt SOURCES tr = (Ok rep, tr')).
Proof.
  intros output_dir. split.
  - intros rep tr' Hmain.
    destruct (main_Ok_inv _ _ _ _ _ _ _ Hmain) as (Hne & Hmk & Hsetup).
    destruct (main_run w t fmt SOURCES tr Hne Hmk Hsetup)
      as (rs & evs & Hrs & Hrun).
    rewrite Hrun in Hmain. injection Hmain as <- <-.
    split; [done|]. exists rs. split; [done|].
    by destruct (sum_counts rs) as [[c f] s].
  - intros Hne Hmk Hsetup.
    destruct (main_run w t fmt SOURCES tr Hne Hmk Hsetup)
      as (rs & evs & _ & Hrun).
    by eexists _, _.
Qed.

Lemma total_processed_is_sum_of_counts_witness :
  ∃ rep tr',
    main sample_world docling OUTPUT_FORMAT
      [folder_source "docs"; file_source "docs/notes.bin"; ftp_source] []
    = (Ok rep, tr')
    ∧ total_processed rep
      = converted_count rep + failed_count rep + skipped_count rep
    ∧ (converted_count rep, failed_count rep, skipped_count rep)
      = sum_counts [(1, 1, 1); (0, 1, 0)].
Proof.
  pose proof (total_processed_is_sum_of_counts sample_world docling
                OUTPUT_FORMAT
                [folder_source "docs"; file_source "docs/notes.bin"; ftp_source]
                []) as [Hsum Hruns].
  destruct (Hruns ltac:(discriminate) eq_refl (or_intror eq_refl))
    as (rep & tr' & Hmain).
  exists rep, tr'. split; [exact Hmain|].
  destruct (Hsum rep tr' Hmain) as (Htotal & rs & Hrs & Hcounts).
  split; [exact Htotal|].
  rewrite Hcounts. f_equal.
  assert (Htr : tr' = snd (main sample_world docling OUTPUT_FORMAT
                  [folder_source "docs"; file_source "docs/notes.bin"; ftp_source]
                  [])) by (by rewrite Hmain).
  vm_compute in Htr. subst tr'. vm_compute in Hrs. by injection Hrs as <-.
Defined.

(** C7, as stated, fails for the pymupdf script: it has no URL branch, so
    a source of type "url" falls into the branch for unsupported types
    and nothing is converted, where the docling script converts the same
    source in the same world. *)
Lemma pymupdf_does_not_dispatch_url :
  dispatch pymupdf (src_type (url_source "https://example.com/a")) = None
  ∧ convert_from_sources sample_world pymupdf OUTPUT_FORMAT
      [url_source "https://example.com/a"] ["pymupdf"; "output"] []
    = (Ok (0, 0, 0), [])
  ∧ convert_from_sources sample_world docling OUTPUT_FORMAT
      [url_source "https://example.com/a"] ["docling"; "output"] []
    = (Ok (1, 0, 0),
       [EConvert (ArgStr "https://example.com/a");
        EMkdir ["docling"; "output"; "urls"];
        EWrite ["docling"; "output"; "urls"; "page.md"] "# text"]).
Proof. repeat split; reflexivity. Qed.

(** C7, amended.  Each of the four scripts processes a list of sources
    and dispatches type "folder" to the folder handler and type "file" to
    the single-file handler.  The docling, marker and markitdown scripts
    dispatch type "url" to the URL handler and add its triple to the
    running totals; the pymupdf script covers folders and single files
    only. *)
Theorem sources_are_dispatched_by_type (w : World) (t : tool) (fmt : string)
    (output_dir : Path) (cfg : source_config) (tc tf ts : nat)
    (tr : list event) :
  (src_type cfg = Some "folder" →
   ∀ c f s tr',
     process_folder_source w t fmt cfg output_dir tr = (Ok (c, f, s), tr') →
     source_step w t fmt output_dir cfg (tc, tf, ts) tr
     = (Ok (tc + c, tf + f, ts + s), tr'))
  ∧ (src_type cfg = Some "file" →
     ∀ c f s tr',
       process_file_source w t fmt cfg output_dir tr = (Ok (c, f, s), tr') →
       source_step w t fmt output_dir cfg (tc, tf, ts) tr
       = (Ok (tc + c, tf + f, ts + s), tr'))
  ∧ (src_type cfg = Some "url" → t ≠ pymupdf →
     dispatch t (src_type cfg) = Some Url
     ∧ ∀ c f s tr',
         process_url_source w t fmt cfg output_dir tr = (Ok (c, f, s), tr') →
         source_step w t fmt output_dir cfg (tc, tf, ts) tr
         = (Ok (tc + c, tf + f, ts + s), tr')).
Proof.
  split; [|split].
  - intros Hty c f s tr' Hrun.
    apply (source_step_dispatched w t fmt output_dir cfg Folder);
      [by rewrite Hty, dispatch_folder | done].
  - intros Hty c f s tr' Hrun.
    apply (source_step_dispatched w t fmt output_dir cfg File);
      [by rewrite Hty, dispatch_file | done].
  - intros Hty Ht.
    assert (Hd : dispatch t (src_type cfg) = Some Url)
      by (rewrite Hty, dispatch_url; by rewrite decide_False).
    split; [done|]. intros c f s tr' Hrun.
    by apply (source_step_dispatched w t fmt output_dir cfg Url).
Qed.

Lemma sources_are_dispatched_by_type_witness :
  source_step sample_world markitdown OUTPUT_FORMAT ["markitdown"; "output"]
    (url_source "https://example.com/a") (2, 0, 0) []
  = (Ok (2 + 1, 0 + 0, 0 + 0),
     [EConvert (ArgStr "https://example.com/a");
      EMkdir ["markitdown"; "output"; "urls"];
      EWrite ["markitdown"; "output"; "urls"; "page.md"] "# text"])
  ∧ source_step sample_world pymupdf OUTPUT_FORMAT ["pymupdf"; "output"]
      (file_source "docs/a.pdf") (0, 0, 0) []
    = (Ok (0 + 1, 0 + 0, 0 + 0),
       [EStat ["docs"; "a.pdf"]; EConvert (ArgStr "docs/a.pdf");
        EMkdir ["pymupdf"; "output"; "single_files"];
        EWrite ["pymupdf"; "output"; "single_files"; "one.md"] "# text";
        EStat ["docs"; "a.pdf"]])
  ∧ source_step sample_world pymupdf OUTPUT_FORMAT ["pymupdf"; "output"]
      (folder_source "missing") (0, 0, 0) []
    = (Ok (0 + 0, 0 + 0, 0 + 0), []).
Proof.
  split; [|split].
  - apply (proj2 (proj2 (sources_are_dispatched_by_type sample_world markitdown
             OUTPUT_FORMAT ["markitdown"; "output"]
             (url_source "https://example.com/a") 2 0 0 []))
             eq_refl ltac:(discriminate)).
    reflexivity.
  - apply (proj1 (proj2 (sources_are_dispatched_by_type sample_world pymupdf
             OUTPUT_FORMAT ["pymupdf"; "output"]
             (file_source "docs/a.pdf") 0 0 0 [])) eq_refl).
    reflexivity.
  - apply (proj1 (sources_are_dispatched_by_type sample_world pymupdf
             OUTPUT_FORMAT ["pymupdf"; "output"]
             (folder_source "missing") 0 0 0 []) eq_refl).
    reflexivity.
Defined.

(** C8.  A source whose type is none of the cases the script dispatches
    (neither "folder" nor "file", nor "url" except in the pymupdf script,
    where "url" is not dispatched either) leaves the three running totals
    as they are, calls nothing, and the loop goes on with the next
    source. *)
Theorem undispatched_source_leaves_totals (w : World) (t : tool) (fmt : string)
    (output_dir : Path) (cfg : source_config) (rest : list source_config)
    (totals : counts) (tr : list event) :
  src_type cfg ≠ Some "folder" →
  src_type cfg ≠ Some "file" →
  t = pymupdf ∨ src_type cfg ≠ Some "url" →
  source_step w t fmt output_dir cfg totals tr = (Ok totals, tr)
  ∧ for_each (cfg :: rest) (source_step w t fmt output_dir) totals tr
    = for_each rest (source_step w t fmt output_dir) totals tr.
Proof.
  intros Hfolder Hfile Hurl.
  assert (Hstep : source_step w t fmt output_dir cfg totals tr = (Ok totals, tr))
    by (apply source_step_undispatched; by apply dispatch_other).
  split; [done|]. by apply for_each_cons.
Qed.

Lemma undispatched_source_leaves_totals_witness :
  (source_step sample_world pymupdf OUTPUT_FORMAT ["pymupdf"; "output"]
     (url_source "https://example.com/a") (3, 2, 1) []
   = (Ok (3, 2, 1), [])
   ∧ for_each [url_source "https://example.com/a"; file_source "docs/a.pdf"]
       (source_step sample_world pymupdf OUTPUT_FORMAT ["pymupdf"; "output"])
       (3, 2, 1) []
     = for_each [file_source "docs/a.pdf"]
         (source_step sample_world pymupdf OUTPUT_FORMAT ["pymupdf"; "output"])
         (3, 2, 1) [])
  ∧ source_step sample_world docling OUTPUT_FORMAT ["docling"; "output"]
      ftp_source (3, 2, 1) []
    = (Ok (3, 2, 1), []).
Proof.
  split.
  - apply (undispatched_source_leaves_totals sample_world pymupdf OUTPUT_FORMAT
             ["pymupdf"; "output"] (url_source "https://example.com/a")
             [file_source "docs/a.pdf"] (3, 2, 1) []);
      [discriminate | discriminate | left; reflexivity].
  - apply (undispatched_source_leaves_totals sample_world docling OUTPUT_FORMAT
             ["docling"; "output"] ftp_source [] (3, 2, 1) []);
      [discriminate | discriminate | right; discriminate].
Defined.



(** C10.  In [process_file_source] the extension check comes before the
    size check: an existing single-file source whose extension is outside
    the allow-list counts as one failure whatever its size, and no size is
    queried for it (no [stat], no read: the trace is unchanged), so an
    oversized unsupported file is failed, not skipped. *)
Theorem unsupported_file_fails_before_size_check (w : World) (t : tool)
    (fmt : string) (cfg : source_config) (output_dir : Path)
    (tr : list event) :
  exists_ w (Path_of_str (src_path cfg)) = true →
  supported t (Path_of_str (src_path cfg)) = false →
  process_file_source w t fmt cfg output_dir tr = (Ok (0, 1, 0), tr).
Proof. intros _ Hs. by apply process_file_source_unsupported. Qed.

Lemma unsupported_file_fails_before_size_check_witness :
  too_large (size_of sample_world (Path_of_str "docs/notes.bin")) = true
  ∧ process_file_source sample_world markitdown OUTPUT_FORMAT
      (file_source "docs/notes.bin") ["markitdown"; "output"] []
    = (Ok (0, 1, 0), []).
Proof.
  split; [reflexivity|].
  apply (unsupported_file_fails_before_size_check sample_world markitdown
           OUTPUT_FORMAT (file_source "docs/notes.bin")
           ["markitdown"; "output"] []); reflexivity.
Defined.




(** * Further properties of the scripts *)

(** ** Events of a given kind *)

Lemma within_ret {A} (Q : event → Prop) (a : A) : within Q (ret a).
Proof. intros tr. exists (Ok a), []. by rewrite app_nil_r. Qed.

Lemma within_raise {A} (Q : event → Prop) (e : exn) : within Q (@raise A e).
Proof. intros tr. exists (Raise e), []. by rewrite app_nil_r. Qed.

Lemma within_lift {A} (Q : event → Prop) (o : exn + A) : within Q (lift o).
Proof. destruct o; [apply within_raise | apply within_ret]. Qed.

Lemma within_call {A} (Q : event → Prop) (ev : event)
    (answer : list event → exn + A) :
  Q ev → within Q (call ev answer).
Proof.
  intros HQ tr. unfold call.
  destruct (answer (tr ++ [ev])) as [e|a];
    [exists (Raise e), [ev] | exists (Ok a), [ev]];
    (split; [done | by constructor]).
Qed.

Lemma within_bind {A B} (Q : event → Prop) (m : M A) (k : A → M B) :
  within Q m → (∀ a, within Q (k a)) → within Q (bind m k).
Proof.
  intros Hm Hk tr. unfold bind.
  destruct (Hm tr) as (r & evs & -> & HQ).
  destruct r as [a|e|c]; [|by exists (Raise e), evs|by exists (Exit c), evs].
  destruct (Hk a (tr ++ evs)) as (r' & evs' & -> & HQ').
  exists r', (evs ++ evs'). rewrite app_assoc. split; [done|].
  by apply Forall_app.
Qed.

Lemma within_try {A} (Q : event → Prop) (body : M A) (handler : exn → M A) :
  within Q body → (∀ e, within Q (handler e)) → within Q (try_except body handler).
Proof.
  intros Hb Hh tr. unfold try_except.
  destruct (Hb tr) as (r & evs & -> & HQ).
  destruct r as [a|e|c]; [by exists (Ok a), evs| |by exists (Exit c), evs].
  destruct (Hh e (tr ++ evs)) as (r' & evs' & -> & HQ').
  exists r', (evs ++ evs'). rewrite app_assoc. split; [done|].
  by apply Forall_app.
Qed.

Lemma within_for_each {A S} (Q : event → Prop) (l : list A)
    (body : A → S → M S) (s : S) :
  (∀ x s', within Q (body x s')) → within Q (for_each l body s).
Proof.
  intros Hb. revert s. induction l as [|x l IH]; intros s; simpl.
  - apply within_ret.
  - apply within_bind; [apply Hb | intros; apply IH].
Qed.

Lemma within_relative_to (Q : event → Prop) (p base : Path) :
  within Q (relative_to p base).
Proof.
  unfold relative_to.
  destruct (strip_prefix base p); [apply within_ret | apply within_raise].
Qed.

Lemma within_with_suffix (Q : event → Prop) (p : Path) (sfx : string) :
  within Q (with_suffix p sfx).
Proof.
  unfold with_suffix. repeat case_match; (apply within_ret || apply within_raise).
Qed.

Lemma within_export (Q : event → Prop) (t : tool) (fmt : string)
    (rendered : Rendered) :
  within Q (export t fmt rendered).
Proof.
  unfold export.
  repeat case_match;
    first [ apply within_ret
          | apply within_bind; [apply within_lift | intros; apply within_ret] ].
Qed.

Create HintDb within.
#[local] Hint Resolve within_ret within_raise within_lift within_relative_to
  within_with_suffix within_export : within.

Ltac within_steps :=
  repeat first
    [ apply within_bind; [|intros]
    | apply within_call
    | solve [auto with within] ].

Lemma fs_reads_nil (evs : list event) :
  Forall (λ ev, is_fs_read ev = false) evs → fs_reads evs = [].
Proof.
  induction 1 as [|ev evs Hev _ IH]; [done|].
  unfold fs_reads in *. cbn [omap list_omap]. destruct ev; try done; by rewrite IH.
Qed.

Lemma same_run {A} (m : M A) (tr : list event) (r r' : result A)
    (evs evs' : list event) :
  m tr = (r, tr ++ evs) → m tr = (r', tr ++ evs') → r' = r ∧ evs' = evs.
Proof.
  intros H H'. rewrite H in H'. injection H' as -> Heq.
  by apply app_inv_head in Heq.
Qed.

(** ** URL sources *)

Lemma convert_url_no_fs_read (w : World) (t : tool) (fmt : string)
    (output_dir : Path) (source_name url : string) :
  within (λ ev, is_fs_read ev = false)
         (convert_url w t fmt output_dir source_name url).
Proof.
  unfold convert_url, convert, mkdir, write. within_steps; done.
Qed.

(** X1.  A URL source is handed to the library as it is: whatever the
    string, [process_url_source] makes exactly one conversion call, with
    the configured string unchanged, queries no file, and returns
    (1, 0, 0) or (0, 1, 0); a URL source is never skipped. *)
Theorem url_source_calls_library_once (w : World) (t : tool) (fmt : string)
    (cfg : source_config) (output_dir : Path) (tr : list event) :
  ∃ r evs,
    process_url_source w t fmt cfg output_dir tr = (Ok r, tr ++ evs)
    ∧ conversions evs = [ArgStr (src_path cfg)]
    ∧ fs_reads evs = []
    ∧ (r = (1, 0, 0) ∨ r = (0, 1, 0)).
Proof.
  set (body := convert_url w t fmt output_dir
                 (default "web_content" (src_name cfg)) (src_path cfg)).
  destruct (logs_convert_url w t fmt output_dir
              (default "web_content" (src_name cfg)) (src_path cfg) tr)
    as (r & evs & Hrun & Hcs & _).
  destruct (convert_url_no_fs_read w t fmt output_dir
              (default "web_content" (src_name cfg)) (src_path cfg) tr)
    as (r1 & evs1 & Hrun1 & Hq).
  destruct (same_run _ _ _ _ _ _ Hrun Hrun1) as [-> ->].
  destruct (convert_url_returns w t fmt output_dir
              (default "web_content" (src_name cfg)) (src_path cfg) tr)
    as (r2 & evs2 & Hrun2 & Hr).
  destruct (same_run _ _ _ _ _ _ Hrun Hrun2) as [-> ->].
  apply fs_reads_nil in Hq.
  unfold process_url_source, try_except. rewrite Hrun.
  destruct r as [cnt|e|code]; [|by exists (0, 1, 0), evs; auto|done].
  exists cnt, evs. auto.
Qed.

(** ** The ways [main] ends *)


(** ** Accounting of a folder source *)

Lemma candidates_split (w : World) (t : tool) (l : list Path) :
  List.length (List.filter (convertible w t) l)
  + List.length (List.filter (oversized w t) l)
  = List.length (List.filter (candidate w t) l).
Proof.
  induction l as [|p l IH]; [done|]. cbn [List.filter].
  unfold convertible at 1, oversized at 1.
  destruct (candidate w t p), (too_large (size_of w p)); simpl; lia.
Qed.

(** X3.  A folder source accounts for every candidate exactly once: the
    three counters it returns add up to the number of traversal entries
    that are regular files with an allow-listed extension.  Directories
    and files with other extensions are counted nowhere. *)
Theorem folder_counts_add_up_to_candidates (w : World) (t : tool)
    (fmt : string) (cfg : source_config) (output_dir : Path)
    (tr : list event) :
  exists_ w (Path_of_str (src_path cfg)) = true →
  ∃ c f s evs,
    process_folder_source w t fmt cfg output_dir tr = (Ok (c, f, s), tr ++ evs)
    ∧ c + f + s
      = List.length (List.filter (candidate w t) (file_iterator w cfg))
    ∧ (c + f + s ≤ List.length (file_iterator w cfg))%nat.
Proof.
  intros Hex.
  destruct (process_folder_source_spec w t fmt cfg output_dir tr Hex)
    as (c & f & s & evs & Hrun & _ & Hs & Hcf).
  exists c, f, s, evs. split; [done|].
  assert (Hsum : c + f + s
                 = List.length (List.filter (candidate w t) (file_iterator w cfg)))
    by (rewrite <- candidates_split; lia).
  split; [done|]. rewrite Hsum. apply filter_length_le.
Qed.

Lemma folder_counts_add_up_to_candidates_witness :
  ∃ c f s evs,
    process_folder_source sample_world markitdown OUTPUT_FORMAT
      (folder_source "docs") ["markitdown"; "output"] []
    = (Ok (c, f, s), evs)
    ∧ c + f + s = 3.
Proof.
  destruct (folder_counts_add_up_to_candidates sample_world markitdown
              OUTPUT_FORMAT (folder_source "docs") ["markitdown"; "output"] []
              eq_refl)
    as (c & f & s & evs & Hrun & Hsum & _).
  exists c, f, s, evs. split; [exact Hrun | exact Hsum].
Defined.

(** ** Counters against events *)

Lemma writes_at_most_ret {A} (a : A) : writes_at_most 0 (ret a).
Proof. intros tr. exists (Ok a), []. by rewrite app_nil_r. Qed.

Lemma writes_at_most_raise {A} (e : exn) : writes_at_most 0 (@raise A e).
Proof. intros tr. exists (Raise e), []. by rewrite app_nil_r. Qed.

Lemma writes_at_most_call {A} (ev : event) (answer : list event → exn + A) :
  writes_at_most (List.length (writes [ev])) (call ev answer).
Proof.
  intros tr. unfold call.
  destruct (answer (tr ++ [ev])) as [e|a];
    [exists (Raise e), [ev] | exists (Ok a), [ev]]; done.
Qed.

Lemma writes_at_most_bind {A B} (n1 n2 : nat) (m : M A) (k : A → M B) :
  writes_at_most n1 m → (∀ a, writes_at_most n2 (k a)) →
  writes_at_most (n1 + n2) (bind m k).
Proof.
  intros Hm Hk tr. unfold bind.
  destruct (Hm tr) as (r & evs & -> & Hn).
  destruct r as [a|e|c];
    [|exists (Raise e), evs; split; [done|lia]
     |exists (Exit c), evs; split; [done|lia]].
  destruct (Hk a (tr ++ evs)) as (r' & evs' & -> & Hn').
  exists r', (evs ++ evs'). rewrite app_assoc. split; [done|].
  rewrite writes_app, length_app. lia.
Qed.

Lemma writes_at_most_quiet {A} (m : M A) :
  within (λ ev, match ev with EWrite _ _ => False | _ => True end) m →
  writes_at_most 0 m.
Proof.
  intros H tr. destruct (H tr) as (r & evs & -> & HQ).
  exists r, evs. split; [done|].
  induction HQ as [|ev evs Hev _ IH]; [done|].
  unfold writes in *. by destruct ev.
Qed.

Ltac quiet_steps :=
  apply writes_at_most_quiet; within_steps; done.

Lemma convert_folder_file_one_write (w : World) (t : tool) (fmt : string)
    (output_dir : Path) (source_name : string) (folder_path file_path : Path) :
  writes_at_most 1
    (convert_folder_file w t fmt output_dir source_name folder_path file_path).
Proof.
  unfold convert_folder_file.
  apply (writes_at_most_bind 0 1); [unfold convert; quiet_steps | intros].
  apply (writes_at_most_bind 0 1); [quiet_steps | intros].
  apply (writes_at_most_bind 0 1); [quiet_steps | intros].
  apply (writes_at_most_bind 0 1); [quiet_steps | intros].
  apply (writes_at_most_bind 0 1); [unfold mkdir; quiet_steps | intros].
  apply (writes_at_most_bind 1 0);
    [apply (writes_at_most_call (EWrite _ _)) | intros].
  unfold stat. quiet_steps.
Qed.

Lemma write_single_file_one_write (w : World) (t : tool) (fmt : string)
    (output_dir : Path) (source_name : string) (file_path : Path) :
  writes_at_most 1
    (write_single_file w t fmt output_dir source_name file_path).
Proof.
  unfold write_single_file.
  apply (writes_at_most_bind 0 1); [unfold convert; quiet_steps | intros].
  apply (writes_at_most_bind 0 1); [quiet_steps | intros].
  apply (writes_at_most_bind 0 1); [unfold mkdir; quiet_steps | intros].
  apply (writes_at_most_bind 1 0);
    [apply (writes_at_most_call (EWrite _ _)) | intros].
  destruct t; unfold stat; quiet_steps.
Qed.

Lemma convert_url_one_write (w : World) (t : tool) (fmt : string)
    (output_dir : Path) (source_name url : string) :
  writes_at_most 1 (convert_url w t fmt output_dir source_name url).
Proof.
  unfold convert_url.
  apply (writes_at_most_bind 0 1); [unfold convert; quiet_steps | intros].
  apply (writes_at_most_bind 0 1); [quiet_steps | intros].
  apply (writes_at_most_bind 0 1); [unfold mkdir; quiet_steps | intros].
  apply (writes_at_most_bind 1 0);
    [apply (writes_at_most_call (EWrite _ _)) | intros].
  apply writes_at_most_ret.
Qed.

Lemma balanced_app (r1 r2 : counts) (evs1 evs2 : list event) :
  balanced r1 evs1 → balanced r2 evs2 →
  balanced (add_counts r1 r2) (evs1 ++ evs2).
Proof.
  unfold balanced, add_counts. destruct r1 as [[c1 f1] s1], r2 as [[c2 f2] s2].
  simpl. rewrite writes_app, conversions_app, !length_app. lia.
Qed.

Lemma balanced_attempt {A} (m : M A) (a : conv_arg) (tr : list event)
    (r : result A) (evs : list event) :
  logs m [a] → writes_at_most 1 m →
  (∀ x tr', m tr = (Ok x, tr') → ∃ evs' p, tr' = tr ++ evs' ∧ writes evs' = [p]) →
  m tr = (r, tr ++ evs) →
  match r with
  | Ok _ => balanced (1, 0, 0) evs
  | Raise _ => balanced (0, 1, 0) evs
  | Exit _ => False
  end.
Proof.
  intros Hlogs Hw Hok Hrun.
  destruct (Hlogs tr) as (r1 & evs1 & Hrun1 & Hcs & Hne).
  destruct (same_run _ _ _ _ _ _ Hrun Hrun1) as [-> ->].
  destruct (Hw tr) as (r2 & evs2 & Hrun2 & Hle).
  destruct (same_run _ _ _ _ _ _ Hrun Hrun2) as [-> ->].
  unfold balanced. rewrite Hcs. destruct r as [x|e|code]; [| |done]; simpl.
  - destruct (Hok x _ Hrun) as (evs' & p & Heq & Hp).
    apply app_inv_head in Heq as <-. rewrite Hp. simpl. lia.
  - lia.
Qed.

Lemma folder_step_balanced (w : World) (t : tool) (fmt : string)
    (output_dir : Path) (source_name : string) (folder_path rel : Path)
    (c f s : nat) (tr : list event) :
  ∃ dc df s' evs,
    folder_step w t fmt output_dir source_name folder_path
                (folder_path ++ rel) (c, f, s) tr
    = (Ok (c + dc, f + df, s'), tr ++ evs)
    ∧ balanced (dc, df, 0) evs.
Proof.
  destruct (candidate w t (folder_path ++ rel)) eqn:Hc.
  2: { exists 0, 0, s, []. rewrite app_nil_r, !Nat.add_0_r.
       split; [by apply folder_step_not_candidate|]. unfold balanced; simpl; lia. }
  destruct (too_large (size_of w (folder_path ++ rel))) eqn:Hl.
  { exists 0, 0, (s + 1), [EStat (folder_path ++ rel)]. rewrite !Nat.add_0_r.
    split; [apply folder_step_oversized; unfold oversized; by rewrite Hc, Hl|].
    unfold balanced; simpl; lia. }
  rewrite folder_step_attempt by (unfold convertible; by rewrite Hc, Hl).
  destruct (logs_convert_folder_file w t fmt output_dir source_name folder_path
              (folder_path ++ rel) (tr ++ [EStat (folder_path ++ rel)]))
    as (r & evs & Hrun & _).
  pose proof (balanced_attempt _ _ _ _ _
                (logs_convert_folder_file w t fmt output_dir source_name
                   folder_path (folder_path ++ rel))
                (convert_folder_file_one_write w t fmt output_dir source_name
                   folder_path (folder_path ++ rel))
                ltac:(intros [] tr' H;
                      apply convert_folder_file_Ok in H as (evs' & -> & Hw);
                      eauto)
                Hrun) as Hbal.
  rewrite Hrun, <- app_assoc.
  destruct r as [[]|e|code]; [| |done].
  - exists 1, 0, s, ([EStat (folder_path ++ rel)] ++ evs).
    rewrite !Nat.add_0_r. split; [done|].
    apply (balanced_app (0, 0, 0) (1, 0, 0) [_]); [|done].
    unfold balanced; simpl; lia.
  - exists 0, 1, s, ([EStat (folder_path ++ rel)] ++ evs).
    rewrite !Nat.add_0_r. split; [done|].
    apply (balanced_app (0, 0, 0) (0, 1, 0) [_]); [|done].
    unfold balanced; simpl; lia.
Qed.

Lemma folder_loop_balanced (w : World) (t : tool) (fmt : string)
    (output_dir : Path) (source_name : string) (folder_path : Path)
    (rels : list Path) (c f s : nat) (tr : list event) :
  ∃ dc df s' evs,
    for_each (List.map (λ r, folder_path ++ r) rels)
             (folder_step w t fmt output_dir source_name folder_path)
             (c, f, s) tr
    = (Ok (c + dc, f + df, s'), tr ++ evs)
    ∧ balanced (dc, df, 0) evs.
Proof.
  revert c f s tr. induction rels as [|rel rels IH]; intros c f s tr.
  - exists 0, 0, s, []. rewrite app_nil_r, !Nat.add_0_r. simpl. unfold ret.
    split; [done|]. unfold balanced; simpl; lia.
  - destruct (folder_step_balanced w t fmt output_dir source_name folder_path
                rel c f s tr) as (dc1 & df1 & s1 & evs1 & Hrun1 & Hb1).
    destruct (IH (c + dc1) (f + df1) s1 (tr ++ evs1))
      as (dc2 & df2 & s2 & evs2 & Hrun2 & Hb2).
    exists (dc1 + dc2), (df1 + df2), s2, (evs1 ++ evs2).
    cbn [List.map]. rewrite (for_each_cons _ _ _ _ _ _ _ Hrun1), Hrun2.
    rewrite <- app_assoc, !Nat.add_assoc. split; [done|].
    by apply (balanced_app (dc1, df1, 0) (dc2, df2, 0)).
Qed.

Lemma run_handler_balanced (w : World) (t : tool) (fmt : string) (h : handler)
    (cfg : source_config) (output_dir : Path) (tr : list event) :
  ∃ r evs,
    run_handler w t fmt h cfg output_dir tr = (Ok r, tr ++ evs)
    ∧ balanced r evs.
Proof.
  destruct h; simpl.
  - unfold process_folder_source.
    destruct (exists_ w (Path_of_str (src_path cfg))); simpl.
    + unfold file_iterator, rglob, glob.
      destruct (default true (src_recursive cfg));
        (edestruct folder_loop_balanced as (dc & df & s' & evs & Hrun & Hb);
         exists (dc, df, s'), evs; rewrite Hrun; split; [done|];
         by destruct Hb as (? & ? & ?)).
    + exists (0, 0, 0), []. rewrite app_nil_r. split; [done|].
      unfold balanced; simpl; lia.
  - set (p := Path_of_str (src_path cfg)).
    destruct (exists_ w p) eqn:He.
    2: { exists (0, 1, 0), []. rewrite app_nil_r.
         split; [by apply process_file_source_missing|].
         unfold balanced; simpl; lia. }
    destruct (supported t p) eqn:Hs.
    2: { exists (0, 1, 0), []. rewrite app_nil_r.
         split; [by apply process_file_source_unsupported|].
         unfold balanced; simpl; lia. }
    rewrite process_file_source_attempt by done.
    unfold convert_single_file, bind. fold p.
    destruct (single_file_size_logs w t p tr) as (r0 & evs0 & Hsize & Hcs0 & Hne0).
    pose proof (single_file_size_writes _ _ _ _ _ _ Hsize) as (evs0' & Heq & Hw0).
    apply app_inv_head in Heq as <-. rewrite Hsize.
    assert (Hb0 : balanced (0, 0, 0) evs0)
      by (unfold balanced; rewrite Hcs0, Hw0; simpl; lia).
    destruct r0 as [size|e|code]; [|exists (0, 1, 0), evs0; split; [done|]|done].
    2: { unfold balanced in *; simpl in *; lia. }
    destruct (too_large size).
    { exists (0, 0, 1), evs0. split; [done|].
      unfold balanced in *; simpl in *; lia. }
    set (name := default (stem p) (src_name cfg)).
    destruct (write_single_file_logs w t fmt output_dir name p (tr ++ evs0))
      as (r & evs & Hrun & _).
    pose proof (balanced_attempt _ _ _ _ _
                  (write_single_file_logs w t fmt output_dir name p)
                  (write_single_file_one_write w t fmt output_dir name p)
                  ltac:(intros x tr' H;
                        apply write_single_file_Ok in H as (evs' & -> & Hw);
                        eauto)
                  Hrun) as Hbal.
    destruct (write_single_file_returns w t fmt output_dir name p (tr ++ evs0))
      as (r1 & evs1 & Hrun1 & Hr).
    destruct (same_run _ _ _ _ _ _ Hrun Hrun1) as [-> ->].
    rewrite Hrun, <- app_assoc.
    destruct r as [cnt|e|code]; [subst cnt| |done].
    + exists (1, 0, 0), (evs0 ++ evs). split; [done|].
      by apply (balanced_app (0, 0, 0) (1, 0, 0)).
    + exists (0, 1, 0), (evs0 ++ evs). split; [done|].
      by apply (balanced_app (0, 0, 0) (0, 1, 0)).
  - unfold process_url_source, try_except.
    set (name := default "web_content" (src_name cfg)).
    destruct (logs_convert_url w t fmt output_dir name (src_path cfg) tr)
      as (r & evs & Hrun & _).
    pose proof (balanced_attempt _ _ _ _ _
                  (logs_convert_url w t fmt output_dir name (src_path cfg))
                  (convert_url_one_write w t fmt output_dir name (src_path cfg))
                  ltac:(intros x tr' H;
                        apply convert_url_Ok in H as (evs' & -> & Hw); eauto)
                  Hrun) as Hbal.
    destruct (convert_url_returns w t fmt output_dir name (src_path cfg) tr)
      as (r1 & evs1 & Hrun1 & Hr).
    destruct (same_run _ _ _ _ _ _ Hrun Hrun1) as [-> ->].
    rewrite Hrun. destruct r as [cnt|e|code]; [subst cnt| |done].
    + by exists (1, 0, 0), evs.
    + by exists (0, 1, 0), evs.
Qed.

Lemma source_loop_balanced (w : World) (t : tool) (fmt : string)
    (output_dir : Path) (sources : list source_config) (acc : counts)
    (tr : list event) :
  ∃ r evs,
    for_each sources (source_step w t fmt output_dir) acc tr
    = (Ok (add_counts acc r), tr ++ evs)
    ∧ balanced r evs.
Proof.
  revert acc tr. induction sources as [|cfg rest IH]; intros acc tr.
  - exists (0, 0, 0), []. simpl. unfold ret.
    rewrite app_nil_r, add_counts_zero. split; [done|].
    unfold balanced; simpl; lia.
  - destruct (dispatch t (src_type cfg)) as [h|] eqn:Hd.
    + destruct (run_handler_balanced w t fmt h cfg output_dir tr)
        as ([[c f] s] & evs1 & Hrun & Hb1).
      destruct acc as [[tc tf] ts].
      pose proof (source_step_dispatched w t fmt output_dir cfg h
                    tc tf ts c f s tr _ Hd Hrun) as Hstep.
      destruct (IH (tc + c, tf + f, ts + s) (tr ++ evs1))
        as (r2 & evs2 & Hloop & Hb2).
      exists (add_counts (c, f, s) r2), (evs1 ++ evs2).
      rewrite (for_each_cons _ _ _ _ _ _ _ Hstep), Hloop, app_assoc.
      split; [|by apply balanced_app].
      change (tc + c, tf + f, ts + s) with (add_counts (tc, tf, ts) (c, f, s)).
      by rewrite add_counts_assoc.
    + destruct (IH acc tr) as (r & evs & Hloop & Hb).
      exists r, evs. split; [|done].
      by rewrite (for_each_cons _ _ _ _ _ _ _
                    (source_step_undispatched w t fmt output_dir cfg acc tr Hd)).
Qed.

(** X4.  Over a whole run the counters agree with what was done: the
    converted total never exceeds the number of output writes, the number
    of output writes never exceeds the number of conversion calls, and
    the number of conversion calls never exceeds converted + failed.  So
    no output is written without a conversion call, and no conversion
    call goes uncounted. *)
Theorem run_counters_agree_with_events (w : World) (t : tool) (fmt : string)
    (sources : list source_config) (output_dir : Path) (tr : list event) :
  ∃ c f s evs,
    convert_from_sources w t fmt sources output_dir tr
    = (Ok (c, f, s), tr ++ evs)
    ∧ (c ≤ List.length (writes evs))%nat
    ∧ (List.length (writes evs) ≤ List.length (conversions evs))%nat
    ∧ (List.length (conversions evs) ≤ c + f)%nat.
Proof.
  destruct (source_loop_balanced w t fmt output_dir sources (0, 0, 0) tr)
    as ([[c f] s] & evs & Hrun & Hc & Hw & Hcv).
  exists c, f, s, evs. unfold convert_from_sources.
  rewrite Hrun, add_counts_zero_l. by simpl in *.
Qed.

(** ** Where the outputs go *)

Lemma spec_ret {A} (Q : event → Prop) (P : A → Prop) (a : A) :
  P a → spec Q P (ret a).
Proof.
  intros HP tr. exists (Ok a), []. rewrite app_nil_r.
  repeat split; [done|]. by intros ? [= <-].
Qed.

Lemma spec_raise {A} (Q : event → Prop) (P : A → Prop) (e : exn) :
  spec Q P (@raise A e).
Proof. intros tr. exists (Raise e), []. by rewrite app_nil_r. Qed.

Lemma spec_call {A} (Q : event → Prop) (ev : event)
    (answer : list event → exn + A) :
  Q ev → spec Q (λ _, True) (call ev answer).
Proof.
  intros HQ tr. unfold call.
  destruct (answer (tr ++ [ev])) as [e|a];
    [exists (Raise e), [ev] | exists (Ok a), [ev]];
    (split; [done|]; split; [by constructor | done]).
Qed.

Lemma spec_bind {A B} (Q : event → Prop) (P : A → Prop) (P' : B → Prop)
    (m : M A) (k : A → M B) :
  spec Q P m → (∀ a, P a → spec Q P' (k a)) → spec Q P' (bind m k).
Proof.
  intros Hm Hk tr. unfold bind.
  destruct (Hm tr) as (r & evs & -> & HQ & HP).
  destruct r as [a|e|c]; [|by exists (Raise e), evs|by exists (Exit c), evs].
  destruct (Hk a (HP a eq_refl) (tr ++ evs)) as (r' & evs' & -> & HQ' & HP').
  exists r', (evs ++ evs'). rewrite app_assoc. split; [done|].
  split; [by apply Forall_app | done].
Qed.

Lemma spec_try {A} (Q : event → Prop) (P : A → Prop)
    (body : M A) (handler : exn → M A) :
  spec Q P body → (∀ e, spec Q P (handler e)) → spec Q P (try_except body handler).
Proof.
  intros Hb Hh tr. unfold try_except.
  destruct (Hb tr) as (r & evs & -> & HQ & HP).
  destruct r as [a|e|c]; [by exists (Ok a), evs| |by exists (Exit c), evs].
  destruct (Hh e (tr ++ evs)) as (r' & evs' & -> & HQ' & HP').
  exists r', (evs ++ evs'). rewrite app_assoc. split; [done|].
  split; [by apply Forall_app | done].
Qed.

Lemma spec_weaken {A} (Q : event → Prop) (P P' : A → Prop) (m : M A) :
  spec Q P m → (∀ a, P a → P' a) → spec Q P' m.
Proof.
  intros Hm HPP tr. destruct (Hm tr) as (r & evs & -> & HQ & HP).
  exists r, evs. eauto.
Qed.

Lemma spec_for_each {A S} (Q : event → Prop) (l : list A)
    (body : A → S → M S) (s : S) :
  (∀ x s', In x l → spec Q (λ _, True) (body x s')) →
  spec Q (λ _, True) (for_each l body s).
Proof.
  revert s. induction l as [|x l IH]; intros s Hb; simpl.
  - by apply spec_ret.
  - apply (spec_bind Q (λ _, True)); [apply Hb; by left|].
    intros s' _. apply IH. intros y s'' Hy. apply Hb. by right.
Qed.

Lemma spec_export (Q : event → Prop) (t : tool) (fmt : string)
    (rendered : Rendered) :
  spec Q (λ ce, ce.2 = output_extension t fmt) (export t fmt rendered).
Proof.
  intros tr. unfold export, output_extension, bind, lift, ret, raise.
  destruct t; try destruct (decide (fmt = "markdown"));
    try destruct (export_markdown rendered);
    eexists _, []; rewrite app_nil_r;
    (split; [reflexivity|]; split; [constructor|]; by intros ? [= <-]).
Qed.

Lemma spec_relative_to_app (Q : event → Prop) (base r : Path) :
  spec Q (λ x, x = r) (relative_to (base ++ r) base).
Proof.
  intros tr. exists (Ok r), []. rewrite app_nil_r, relative_to_app.
  repeat split; [done|]. by intros ? [= <-].
Qed.

Lemma spec_with_suffix (Q : event → Prop) (p : Path) (sfx : string) :
  spec Q (λ q, q = parent p ++ [stem p +:+ sfx]) (with_suffix p sfx).
Proof.
  intros tr. destruct (with_suffix p sfx tr) as [r tr'] eqn:Hrun.
  destruct (within_with_suffix (λ _, False) p sfx tr)
    as (r1 & evs & Hrun1 & HF). rewrite Hrun in Hrun1.
  injection Hrun1 as <- ->. exists r, evs. split; [done|].
  split; [by eapply Forall_impl|].
  intros q ->. by apply with_suffix_Ok_inv in Hrun as [_ ->].
Qed.


Lemma app_dot_not_slash (s e : string) : (s +:+ String "." e =? "/") = false.
Proof.
  apply String.eqb_neq. destruct s as [|c [|c' s]]; [done| |done].
  cbv [String.append]. intros [= _ Hd]. 
Qed.
















Lemma spec_mono {A} (Q Q' : event → Prop) (P : A → Prop) (m : M A) :
  (∀ ev, Q ev → Q' ev) → spec Q P m → spec Q' P m.
Proof.
  intros HQ Hm tr. destruct (Hm tr) as (r & evs & -> & HF & HP).
  exists r, evs. split; [done|]. split; [by eapply Forall_impl | done].
Qed.

Section WritesOnly.
Variables (w : World) (t : tool) (fmt : string) (output_dir : Path).

Lemma convert_folder_file_writes_only (source_name : string)
    (folder_path rel : Path) :
  spec (writes_only
          (joinpath (truediv output_dir source_name)
                    (parent rel ++ [stem rel +:+ output_extension t fmt])))
       (λ _, True)
       (convert_folder_file w t fmt output_dir source_name folder_path
                            (folder_path ++ rel)).
Proof.
  unfold convert_folder_file.
  apply (spec_bind _ (λ _, True)); [by apply spec_call|]. intros rendered _.
  apply (spec_bind _ (λ ce, ce.2 = output_extension t fmt));
    [apply spec_export|]. intros ce ->.
  apply (spec_bind _ (λ x, x = rel)); [apply spec_relative_to_app|].
  intros ? ->.
  apply (spec_bind _ (λ q, q = parent rel ++ [stem rel +:+ output_extension t fmt]));
    [apply spec_with_suffix|]. intros ? ->. cbv zeta.
  apply (spec_bind _ (λ _, True)); [by apply spec_call|].
  intros _ _. apply (spec_bind _ (λ _, True)); [by apply spec_call|].
  intros _ _. apply (spec_bind _ (λ _, True)); [by apply spec_call|].
  intros _ _. by apply spec_ret.
Qed.

Lemma write_single_file_writes_only (source_name : string) (file_path : Path) :
  spec (writes_only
          (truediv (truediv output_dir "single_files")
                   (source_name +:+ output_extension t fmt)))
       (λ _, True)
       (write_single_file w t fmt output_dir source_name file_path).
Proof.
  unfold write_single_file.
  apply (spec_bind _ (λ _, True)); [by apply spec_call|]. intros rendered _.
  apply (spec_bind _ (λ ce, ce.2 = output_extension t fmt));
    [apply spec_export|]. intros ce ->. cbv zeta.
  apply (spec_bind _ (λ _, True)); [by apply spec_call|].
  intros _ _. apply (spec_bind _ (λ _, True)); [by apply spec_call|].
  intros _ _. apply (spec_bind _ (λ _, True)).
  { destruct t; first [by apply spec_ret
                      | apply (spec_bind _ (λ _, True));
                        [by apply spec_call | intros; by apply spec_ret]]. }
  intros _ _. by apply spec_ret.
Qed.

Lemma convert_url_writes_only (source_name url : string) :
  spec (writes_only
          (truediv (truediv output_dir "urls")
                   (source_name +:+ output_extension t fmt)))
       (λ _, True)
       (convert_url w t fmt output_dir source_name url).
Proof.
  unfold convert_url.
  apply (spec_bind _ (λ _, True)); [by apply spec_call|]. intros rendered _.
  apply (spec_bind _ (λ ce, ce.2 = output_extension t fmt));
    [apply spec_export|]. intros ce ->. cbv zeta.
  apply (spec_bind _ (λ _, True)); [by apply spec_call|].
  intros _ _. apply (spec_bind _ (λ _, True)); [by apply spec_call|].
  intros _ _. by apply spec_ret.
Qed.

(** The shape of a handler, for any property [Q] of events that the
    queries and conversion calls satisfy and that holds of the one path
    each attempt may write. *)
Lemma run_handler_spec (Q : event → Prop) (h : handler) (cfg : source_config) :
  (∀ p, Q (EStat p)) → (∀ p, Q (ERead p)) → (∀ a, Q (EConvert a)) →
  (∀ rel ev,
     In rel (fs_glob w (Path_of_str (src_path cfg)))
     ∨ In rel (fs_rglob w (Path_of_str (src_path cfg))) →
     writes_only
       (joinpath (truediv output_dir
                    (default (name (Path_of_str (src_path cfg))) (src_name cfg)))
                 (parent rel ++ [stem rel +:+ output_extension t fmt])) ev →
     Q ev) →
  (∀ ev,
     writes_only
       (truediv (truediv output_dir "single_files")
                (default (stem (Path_of_str (src_path cfg))) (src_name cfg)
                 +:+ output_extension t fmt)) ev →
     Q ev) →
  (∀ ev,
     writes_only
       (truediv (truediv output_dir "urls")
                (default "web_content" (src_name cfg)
                 +:+ output_extension t fmt)) ev →
     Q ev) →
  spec Q (λ _, True) (run_handler w t fmt h cfg output_dir).
Proof.
  intros Hstat Hread Hconv Hfolder Hfile Hurl. destruct h; simpl.
  - unfold process_folder_source.
    destruct (exists_ w (Path_of_str (src_path cfg))); simpl;
      [|by apply spec_ret].
    apply spec_for_each. intros x cnt Hx.
    assert (∃ rel, x = Path_of_str (src_path cfg) ++ rel
                   ∧ (In rel (fs_glob w (Path_of_str (src_path cfg)))
                      ∨ In rel (fs_rglob w (Path_of_str (src_path cfg)))))
      as (rel & -> & Hrel).
    { unfold file_iterator, rglob, glob in Hx.
      destruct (default true (src_recursive cfg));
        apply in_map_iff in Hx as (rel & <- & Hin); exists rel; auto. }
    unfold folder_step. destruct cnt as [[c f] s].
    destruct (is_file w _ && supported t _); [|by apply spec_ret].
    apply (spec_bind _ (λ _, True)); [by apply spec_call|]. intros st _.
    destruct (too_large (st_size st)).
    + apply (spec_bind _ (λ _, True));
        [eapply spec_weaken; [apply spec_relative_to_app | done]|].
      intros _ _. by apply spec_ret.
    + apply (spec_bind _ (λ _, True));
        [eapply spec_weaken; [apply spec_relative_to_app | done]|].
      intros _ _. apply spec_try; [|intros; by apply spec_ret].
      apply (spec_bind _ (λ _, True)); [|intros; by apply spec_ret].
      eapply spec_mono; [|apply convert_folder_file_writes_only].
      intros ev. by apply Hfolder.
  - unfold process_file_source.
    destruct (exists_ w _); simpl; [|by apply spec_ret].
    destruct (supported t _); simpl; [|by apply spec_ret].
    apply spec_try; [|intros; by apply spec_ret].
    unfold convert_single_file.
    apply (spec_bind _ (λ _, True)).
    { unfold single_file_size.
      destruct t; first [by apply spec_call
                        | apply (spec_bind _ (λ _, True));
                          [by apply spec_call | intros; by apply spec_ret]]. }
    intros size _. destruct (too_large size); [by apply spec_ret|].
    eapply spec_mono; [|apply write_single_file_writes_only]. done.
  - unfold process_url_source. apply spec_try; [|intros; by apply spec_ret].
    eapply spec_mono; [|apply convert_url_writes_only]. done.
Qed.

Lemma source_step_spec (Q : event → Prop) (cfg : source_config)
    (totals : counts) :
  (∀ h, spec Q (λ _, True) (run_handler w t fmt h cfg output_dir)) →
  spec Q (λ _, True) (source_step w t fmt output_dir cfg totals).
Proof.
  intros Hh. unfold source_step. destruct totals as [[tc tf] ts].
  destruct (dispatch t (src_type cfg)) as [h|]; [|by apply spec_ret].
  apply (spec_bind _ (λ _, True)); [apply Hh|].
  intros [[c f] s] _. by apply spec_ret.
Qed.

Lemma convert_from_sources_spec (Q : event → Prop)
    (sources : list source_config) (tr : list event) :
  (∀ cfg h, In cfg sources →
            spec Q (λ _, True) (run_handler w t fmt h cfg output_dir)) →
  ∃ totals evs,
    convert_from_sources w t fmt sources output_dir tr
    = (Ok totals, tr ++ evs)
    ∧ Forall Q evs.
Proof.
  intros Hh.
  destruct (convert_from_sources_total w t fmt sources output_dir tr)
    as (totals & evs & Hrun).
  exists totals, evs. split; [done|].
  assert (Hspec : spec Q (λ _, True)
                       (convert_from_sources w t fmt sources output_dir)).
  { apply spec_for_each. intros cfg totals' Hin.
    apply source_step_spec. intros h. by apply Hh. }
  destruct (Hspec tr) as (r & evs' & Hrun' & HQ & _).
  by destruct (same_run _ _ _ _ _ _ Hrun Hrun') as [_ ->].
Qed.
End WritesOnly.








(** ** What a successful item wrote *)

Lemma folder_step_converted_writes (w : World) (t : tool) (fmt : string)
    (output_dir : Path) (source_name : string) (folder_path rel : Path)
    (c f s : nat) (tr tr' : list event) :
  folder_step w t fmt output_dir source_name folder_path
              (folder_path ++ rel) (c, f, s) tr
  = (Ok (c + 1, f, s), tr') →
  ∃ evs,
    tr' = tr ++ evs
    ∧ writes evs
      = [joinpath (truediv output_dir source_name)
                  (parent rel ++ [stem rel +:+ output_extension t fmt])].
Proof.
  intros Hstep.
  destruct (candidate w t (folder_path ++ rel)) eqn:Hc.
  2: { rewrite folder_step_not_candidate in Hstep by done.
       injection Hstep as Hn _. lia. }
  destruct (too_large (size_of w (folder_path ++ rel))) eqn:Hl.
  { rewrite folder_step_oversized in Hstep
      by (unfold oversized; by rewrite Hc, Hl).
    injection Hstep as Hn _. lia. }
  rewrite folder_step_attempt in Hstep
    by (unfold convertible; by rewrite Hc, Hl).
  destruct (convert_folder_file _ _ _ _ _ _ _ _) as [[u|e|code] tr1] eqn:Hrun;
    [|injection Hstep as Hn _; lia|done].
  injection Hstep as <-. destruct u.
  apply convert_folder_file_Ok in Hrun as (evs & -> & Hw).
  exists (EStat (folder_path ++ rel) :: evs).
  split; [by rewrite <- app_assoc | exact Hw].
Qed.

Lemma process_file_source_converted_writes (w : World) (t : tool)
    (fmt : string) (cfg : source_config) (output_dir : Path)
    (tr tr' : list event) :
  process_file_source w t fmt cfg output_dir tr = (Ok (1, 0, 0), tr') →
  ∃ evs,
    tr' = tr ++ evs
    ∧ writes evs
      = [truediv (truediv output_dir "single_files")
           (default (stem (Path_of_str (src_path cfg))) (src_name cfg)
            +:+ output_extension t fmt)].
Proof.
  intros Hrun.
  destruct (exists_ w (Path_of_str (src_path cfg))) eqn:He;
    [|by rewrite process_file_source_missing in Hrun].
  destruct (supported t (Path_of_str (src_path cfg))) eqn:Hs;
    [|by rewrite process_file_source_unsupported in Hrun].
  rewrite process_file_source_attempt in Hrun by done.
  unfold convert_single_file, bind in Hrun.
  destruct (single_file_size w t _ tr) as [[size|e|code] tr1] eqn:Hsize;
    [|done..].
  apply single_file_size_writes in Hsize as (evs0 & -> & Hw0).
  destruct (too_large size); [done|].
  destruct (write_single_file _ _ _ _ _ _ _) as [[cnt|e|code] tr2] eqn:Hwrite;
    [|done..].
  injection Hrun as -> <-.
  apply write_single_file_Ok in Hwrite as (evs & -> & Hw).
  exists (evs0 ++ evs). split; [by rewrite app_assoc|].
  by rewrite writes_app, Hw0, Hw.
Qed.

Lemma process_url_source_converted_writes (w : World) (t : tool)
    (fmt : string) (cfg : source_config) (output_dir : Path)
    (tr tr' : list event) :
  process_url_source w t fmt cfg output_dir tr = (Ok (1, 0, 0), tr') →
  ∃ evs,
    tr' = tr ++ evs
    ∧ writes evs
      = [truediv (truediv output_dir "urls")
           (default "web_content" (src_name cfg) +:+ output_extension t fmt)].
Proof.
  intros Hrun. unfold process_url_source, try_except in Hrun.
  destruct (convert_url _ _ _ _ _ _ _) as [[cnt|e|code] tr1] eqn:Hurl;
    [|done..].
  injection Hrun as -> <-. by apply convert_url_Ok in Hurl.
Qed.




(** ** Outputs are not inputs *)

Lemma rfind_app_dot (s e : string) :
  rfind "." e = None → rfind "." (s +:+ String "." e) = Some (String.length s).
Proof.
  intros He. induction s as [|c s IH].
  - change ("" +:+ String "." e) with (String "." e).
    cbn [rfind]. by rewrite He.
  - change (String c s +:+ String "." e) with (String c (s +:+ String "." e)).
    cbn [rfind String.length]. by rewrite IH.
Qed.

Lemma length_str_app (a b : string) :
  String.length (a +:+ b) = String.length a + String.length b.
Proof.
  induction a as [|c a IH]; [done|].
  change (String c a +:+ b) with (String c (a +:+ b)). simpl. by rewrite IH.
Qed.

Lemma str_drop_app (a b : string) : str_drop (String.length a) (a +:+ b) = b.
Proof.
  induction a as [|c a IH]; [by destruct b|].
  change (String c a +:+ b) with (String c (a +:+ b)). simpl. exact IH.
Qed.

Lemma suffix_of_md (x : string) :
  suffix_of (x +:+ ".md") = ".md" ∨ suffix_of (x +:+ ".md") = "".
Proof.
  unfold suffix_of. rewrite rfind_app_dot by done.
  destruct ((0 <? String.length x)%nat && _); [left|by right].
  apply str_drop_app.
Qed.

Lemma name_snoc (p : Path) (x e : string) :
  name (p ++ [x +:+ String "." e]) = x +:+ String "." e.
Proof. unfold name. by rewrite last_last, app_dot_not_slash. Qed.

Lemma supported_md (t : tool) (p : Path) (x : string) :
  supported t (p ++ [x +:+ ".md"]) = false.
Proof.
  unfold supported, suffix. rewrite name_snoc.
  destruct (suffix_of_md x) as [-> | ->]; by destruct t.
Qed.

Lemma split_slash_nonempty (s cur : string) : split_slash s cur ≠ [].
Proof.
  revert cur. induction s as [|c s IH]; intros cur; simpl; [done|].
  destruct (Ascii.eqb c "/"); [done | apply IH].
Qed.

Lemma split_slash_app_no_sep (n e cur : string) :
  str_contains "/" e = false →
  split_slash (n +:+ e) cur
  = removelast (split_slash n cur) ++ [List.last (split_slash n cur) "" +:+ e].
Proof.
  intros He. revert cur. induction n as [|c n IH]; intros cur.
  - change ("" +:+ e) with e. by rewrite split_slash_plain.
  - change (String c n +:+ e) with (String c (n +:+ e)). cbn [split_slash].
    destruct (Ascii.eqb c "/"); [|apply IH].
    rewrite IH. pose proof (split_slash_nonempty n "") as Hne.
    destruct (split_slash n "") as [|y l]; done.
Qed.

Lemma is_part_app_dot (x e : string) (a : ascii) :
  is_part (x +:+ String "." (String a e)) = true.
Proof.
  unfold is_part. apply andb_true_intro.
  split; apply negb_true_iff, String.eqb_neq; by destruct x as [|c [|c' x]].
Qed.

Lemma Path_of_str_md (n : string) :
  ∃ pre x, Path_of_str (n +:+ ".md") = pre ++ [x +:+ ".md"].
Proof.
  unfold Path_of_str. rewrite split_slash_app_no_sep by done.
  rewrite List.filter_app. cbn [List.filter]. rewrite is_part_app_dot.
  destruct (str_take 1 (n +:+ ".md") =? "/"); [|by eexists _, _].
  by eexists ("/" :: _), _.
Qed.

Lemma joinpath_snoc (p q : Path) (y : string) :
  ∃ pre, joinpath p (q ++ [y]) = pre ++ [y].
Proof.
  unfold joinpath. destruct (is_absolute (q ++ [y])); [by exists q|].
  exists (p ++ q). by rewrite app_assoc.
Qed.

Lemma writes_only_unsupported (p : Path) (x : string) (ev : event) :
  writes_only (p ++ [x +:+ ".md"]) ev → writes_unsupported ev.
Proof.
  destruct ev; simpl; try done. intros -> t. apply supported_md.
Qed.

(** X7.  With Markdown as the output format (always, except in the marker
    script set to another format), no file a run writes is a candidate of
    any of the four scripts: the name of every written file ends in .md,
    which none of the allow-lists holds.  So an output directory lying
    inside a source folder does not make a run convert its own outputs. *)
Theorem markdown_outputs_are_never_candidates (w : World) (t : tool)
    (fmt : string) (sources : list source_config) (output_dir : Path)
    (tr : list event) :
  output_extension t fmt = ".md" →
  ∃ totals evs,
    convert_from_sources w t fmt sources output_dir tr
    = (Ok totals, tr ++ evs)
    ∧ Forall writes_unsupported evs.
Proof.
  intros Hext. apply convert_from_sources_spec. intros cfg h _.
  apply run_handler_spec; try done; rewrite Hext.
  - intros rel ev _ Hev.
    destruct (joinpath_snoc
                (truediv output_dir
                   (default (name (Path_of_str (src_path cfg))) (src_name cfg)))
                (parent rel) (stem rel +:+ ".md")) as [pre Hpre].
    rewrite Hpre in Hev. by eapply writes_only_unsupported.
  - intros ev Hev. unfold truediv at 1 in Hev.
    destruct (Path_of_str_md
                (default (stem (Path_of_str (src_path cfg))) (src_name cfg)))
      as (q & x & Hq).
    rewrite Hq in Hev.
    destruct (joinpath_snoc (truediv output_dir "single_files") q (x +:+ ".md"))
      as [pre Hpre].
    rewrite Hpre in Hev. by eapply writes_only_unsupported.
  - intros ev Hev. unfold truediv at 1 in Hev.
    destruct (Path_of_str_md (default "web_content" (src_name cfg)))
      as (q & x & Hq).
    rewrite Hq in Hev.
    destruct (joinpath_snoc (truediv output_dir "urls") q (x +:+ ".md"))
      as [pre Hpre].
    rewrite Hpre in Hev. by eapply writes_only_unsupported.
Qed.

Lemma markdown_outputs_are_never_candidates_witness :
  ∃ totals evs,
    convert_from_sources sample_world markitdown OUTPUT_FORMAT
      [folder_source "docs"; url_source "https://example.com/a"]
      ["markitdown"; "output"] []
    = (Ok totals, evs)
    ∧ Forall writes_unsupported evs.
Proof.
  apply (markdown_outputs_are_never_candidates sample_world markitdown
           OUTPUT_FORMAT
           [folder_source "docs"; url_source "https://example.com/a"]
           ["markitdown"; "output"] []).
  reflexivity.
Defined.

(** ** [extract_text_from_pdf] on small inputs *)

Example extract_sample :
  extract_text_from_pdf ascii_strip sample_fitz "docs/a.pdf" "text"
  = (inr ("# PDF 內容提取" +:+ nl +:+ nl +:+ "## 頁面 2" +:+ nl +:+ nl +:+ "Hello"),
     Closed).
Proof. reflexivity. Qed.

Example extract_sample_dict :
  extract_text_from_pdf ascii_strip sample_fitz "docs/a.pdf" "dict"
  = (inr ("# PDF 內容提取" +:+ nl +:+ nl +:+ "## 頁面 2" +:+ nl +:+ nl +:+ "Hello"),
     Closed).
Proof. reflexivity. Qed.

Example extract_torn :
  extract_text_from_pdf ascii_strip sample_fitz "docs/torn.pdf" "blocks"
  = (inl "PDF 文字提取失敗: cannot load page", LeftOpen).
Proof. reflexivity. Qed.

Example ascii_strip_both_ends :
  ascii_strip (" " +:+ nl +:+ "a b " +:+ nl) = "a b" ∧ ascii_strip "   " = "".
Proof. split; reflexivity. Qed.

(** ** [extract_text_from_pdf] *)

Section ExtractProperties.
Variable strip : string → string.

Lemma pages_loop_spec (mode : string) (pages : list (string + Page))
    (page_num : nat) (text_content : list string) :
  pages_loop strip mode pages page_num text_content
  = match first_failure (List.map (page_outcome strip mode) pages) with
    | Some msg => inl msg
    | None =>
        inr (text_content
             ++ sections_from strip page_num
                  (texts_before_failure
                     (List.map (page_outcome strip mode) pages)))
    end.
Proof.
  revert page_num text_content.
  induction pages as [|[msg|page] pages IH]; intros page_num text_content.
  - simpl. by rewrite app_nil_r.
  - done.
  - cbn [pages_loop List.map page_outcome first_failure texts_before_failure].
    destruct (page_text strip mode page) as [msg|text]; [done|].
    cbn [sections_from]. rewrite IH.
    destruct (first_failure _); [done|].
    destruct (strip text =? ""); simpl; [done|]. by rewrite <- app_assoc.
Qed.


(** X9.  A text [extract_text_from_pdf] returns always starts with the
    title line.  Behind it come the sections of the pages whose text is
    not blank, in page order and separated by a blank line, each under
    the number its page has in the document, so that blank pages leave
    gaps in the numbering; when no page has text, the fixed notice takes
    their place. *)
Theorem extract_text_structure
    (fitz_open : string → string + Document) (pdf_path mode content : string)
    (state : doc_state) :
  extract_text_from_pdf strip fitz_open pdf_path mode = (inr content, state) →
  ∃ doc,
    fitz_open pdf_path = inr doc
    ∧ let sections :=
        sections_from strip 0
          (texts_before_failure
             (List.map (page_outcome strip mode) (doc_pages doc))) in
      content
      = header +:+ (if decide (sections = []) then no_text
                    else String.concat (nl +:+ nl) sections)
      ∧ List.length (texts_before_failure
                       (List.map (page_outcome strip mode) (doc_pages doc)))
        = List.length (doc_pages doc).
Proof.
  unfold extract_text_from_pdf.
  destruct (fitz_open pdf_path) as [msg|doc]; [done|].
  rewrite pages_loop_spec.
  destruct (first_failure _) as [msg|] eqn:Hf; [done|].
  destruct (doc_close doc) as [msg|u]; [done|].
  intros [= <- _]. exists doc. split; [done|]. simpl. split.
  - by destruct (sections_from _ _ _).
  - clear -Hf. induction (doc_pages doc) as [|[msg|page] pages IH]; simpl in *;
      [done|done|].
    destruct (page_text strip mode page); [done|]. simpl. by rewrite IH.
Qed.
End ExtractProperties.

Lemma extract_text_structure_witness :
  ∃ doc,
    sample_fitz "docs/a.pdf" = inr doc
    ∧ "# PDF 內容提取" +:+ nl +:+ nl +:+ "## 頁面 2" +:+ nl +:+ nl +:+ "Hello"
      = header +:+ String.concat (nl +:+ nl)
                     (sections_from ascii_strip 0 ["  "; " Hello "]).
Proof.
  destruct (extract_text_structure ascii_strip sample_fitz "docs/a.pdf" "text"
              _ Closed eq_refl) as (doc & Hdoc & Hcontent & _).
  exists doc. split; [exact Hdoc|].
  injection Hdoc as <-. exact Hcontent.
Defined.

(** ** Extension matching and letter case *)

Lemma lower_ascii_dot (c : ascii) :
  Ascii.eqb (lower_ascii c) "." = Ascii.eqb c ".".
Proof. destruct c as [[] [] [] [] [] [] [] []]; reflexivity. Qed.

Lemma lower_ascii_slash (c : ascii) :
  Ascii.eqb (lower_ascii c) "/" = Ascii.eqb c "/".
Proof. destruct c as [[] [] [] [] [] [] [] []]; reflexivity. Qed.

Lemma rfind_lower (s : string) : rfind "." (lower s) = rfind "." s.
Proof.
  induction s as [|c s IH]; [done|].
  cbn [lower rfind]. by rewrite IH, lower_ascii_dot.
Qed.

Lemma length_lower (s : string) : String.length (lower s) = String.length s.
Proof. induction s as [|c s IH]; [done|]. simpl. by rewrite IH. Qed.

Lemma str_drop_lower (i : nat) (s : string) :
  str_drop i (lower s) = lower (str_drop i s).
Proof. revert s. induction i as [|i IH]; intros [|c s]; simpl; auto. Qed.

Lemma suffix_of_lower (n : string) : suffix_of (lower n) = lower (suffix_of n).
Proof.
  unfold suffix_of. rewrite rfind_lower, length_lower.
  destruct (rfind "." n) as [i|]; [|done].
  destruct ((0 <? i)%nat && (i + 1 <? String.length n)%nat); [|done].
  apply str_drop_lower.
Qed.

Lemma lower_is_slash (n : string) : (lower n =? "/") = (n =? "/").
Proof.
  destruct n as [|c [|c' n]]; [done| |].
  - cbn [lower String.eqb]. by rewrite lower_ascii_slash.
  - cbn [lower String.eqb]. by rewrite lower_ascii_slash.
Qed.

(** The extension the allow-list is asked about depends on the file name
    only through its lowercased form. *)
Lemma lower_suffix_snoc (dir : Path) (n : string) :
  lower (suffix (dir ++ [n])) = suffix_of (if lower n =? "/" then "" else lower n).
Proof.
  unfold suffix, name. rewrite last_last, lower_is_slash.
  destruct (n =? "/"); [done|]. by rewrite suffix_of_lower.
Qed.

(** X10.  Extension matching ignores letter case: two file names that
    differ only in the case of their ASCII letters, in the same
    directory, are either both accepted or both rejected by the
    allow-list of a script. *)
Theorem extension_match_ignores_case (t : tool) (dir : Path) (n1 n2 : string) :
  lower n1 = lower n2 →
  supported t (dir ++ [n1]) = supported t (dir ++ [n2]).
Proof.
  intros Hn. unfold supported. by rewrite !lower_suffix_snoc, Hn.
Qed.

Lemma extension_match_ignores_case_witness :
  lower "Report.PDF" = lower "report.pdf"
  ∧ supported pymupdf ["docs"; "Report.PDF"] = supported pymupdf ["docs"; "report.pdf"]
  ∧ supported pymupdf ["docs"; "Report.PDF"] = true.
Proof.
  split; [reflexivity|]. split; [|reflexivity].
  apply (extension_match_ignores_case pymupdf ["docs"] "Report.PDF" "report.pdf").
  reflexivity.
Defined.

(** ** Items that share an output file *)

(** X11.  The output path of an item keeps only the stem of its name, so
    different inputs can be written to one and the same file.  Two files
    of a folder source that lie in the same directory and have the same
    stem (such as a.pdf and a.docx), when both are converted, are written
    to the same path; so are two single-file sources without a display
    name whose file names have the same stem, and any two URL sources
    without a display name. *)
Theorem same_stem_items_share_output (w : World) (t : tool) (fmt : string)
    (output_dir : Path) :
  (∀ source_name folder_path rel1 rel2 c1 f1 s1 c2 f2 s2 tr1 tr1' tr2 tr2',
     parent rel1 = parent rel2 → stem rel1 = stem rel2 →
     folder_step w t fmt output_dir source_name folder_path
                 (folder_path ++ rel1) (c1, f1, s1) tr1
     = (Ok (c1 + 1, f1, s1), tr1') →
     folder_step w t fmt output_dir source_name folder_path
                 (folder_path ++ rel2) (c2, f2, s2) tr2
     = (Ok (c2 + 1, f2, s2), tr2') →
     ∃ p evs1 evs2,
       tr1' = tr1 ++ evs1 ∧ tr2' = tr2 ++ evs2
       ∧ writes evs1 = [p] ∧ writes evs2 = [p])
  ∧ (∀ cfg1 cfg2 tr1 tr1' tr2 tr2',
       src_name cfg1 = None → src_name cfg2 = None →
       stem (Path_of_str (src_path cfg1)) = stem (Path_of_str (src_path cfg2)) →
       process_file_source w t fmt cfg1 output_dir tr1 = (Ok (1, 0, 0), tr1') →
       process_file_source w t fmt cfg2 output_dir tr2 = (Ok (1, 0, 0), tr2') →
       ∃ p evs1 evs2,
         tr1' = tr1 ++ evs1 ∧ tr2' = tr2 ++ evs2
         ∧ writes evs1 = [p] ∧ writes evs2 = [p])
  ∧ (∀ cfg1 cfg2 tr1 tr1' tr2 tr2',
       src_name cfg1 = None → src_name cfg2 = None →
       process_url_source w t fmt cfg1 output_dir tr1 = (Ok (1, 0, 0), tr1') →
       process_url_source w t fmt cfg2 output_dir tr2 = (Ok (1, 0, 0), tr2') →
       ∃ p evs1 evs2,
         tr1' = tr1 ++ evs1 ∧ tr2' = tr2 ++ evs2
         ∧ writes evs1 = [p] ∧ writes evs2 = [p]).
Proof.
  split; [|split].
  - intros source_name folder_path rel1 rel2 c1 f1 s1 c2 f2 s2 tr1 tr1' tr2 tr2'
           Hparent Hstem H1 H2.
    apply folder_step_converted_writes in H1 as (evs1 & -> & Hw1).
    apply folder_step_converted_writes in H2 as (evs2 & -> & Hw2).
    rewrite Hparent, Hstem in Hw1. eauto 10.
  - intros cfg1 cfg2 tr1 tr1' tr2 tr2' Hn1 Hn2 Hstem H1 H2.
    apply process_file_source_converted_writes in H1 as (evs1 & -> & Hw1).
    apply process_file_source_converted_writes in H2 as (evs2 & -> & Hw2).
    rewrite Hn1 in Hw1. rewrite Hn2 in Hw2. simpl in Hw1, Hw2.
    rewrite Hstem in Hw1. eauto 10.
  - intros cfg1 cfg2 tr1 tr1' tr2 tr2' Hn1 Hn2 H1 H2.
    apply process_url_source_converted_writes in H1 as (evs1 & -> & Hw1).
    apply process_url_source_converted_writes in H2 as (evs2 & -> & Hw2).
    rewrite Hn1 in Hw1. rewrite Hn2 in Hw2. eauto 10.
Qed.

Lemma same_stem_items_share_output_witness :
  ∃ p evs1 evs2,
    [EStat ["docs"; "a.pdf"]; EConvert (ArgStr "docs/a.pdf");
     EMkdir ["docling"; "output"; "docs"];
     EWrite ["docling"; "output"; "docs"; "a.md"] "# text";
     EStat ["docs"; "a.pdf"]] = [] ++ evs1
    ∧ [EStat ["docs"; "a.docx"]; EConvert (ArgStr "docs/a.docx");
       EMkdir ["docling"; "output"; "docs"];
       EWrite ["docling"; "output"; "docs"; "a.md"] "# text";
       EStat ["docs"; "a.docx"]] = [] ++ evs2
    ∧ writes evs1 = [p] ∧ writes evs2 = [p].
Proof.
  apply (proj1 (same_stem_items_share_output twin_world docling OUTPUT_FORMAT
                  ["docling"; "output"])
           "docs" ["docs"] ["a.pdf"] ["a.docx"] 0 0 0 0 0 0 [] _ [] _);
    reflexivity.
Defined.

(** ** The preview *)

Lemma split_lines_cons (c : N) (r : codepoints) :
  split_lines (c :: r)
  = if (c =? LF)%N then [] :: split_lines r
    else match split_lines r with
         | l :: ls => (c :: l) :: ls
         | [] => [[c]]
         end.
Proof. reflexivity. Qed.

Lemma split_lines_nonempty (s : codepoints) : split_lines s ≠ [].
Proof.
  destruct s as [|c r]; [done|]. rewrite split_lines_cons.
  destruct (c =? LF)%N; [done|]. by destruct (split_lines r).
Qed.

Lemma join_lines_cons_cons (c : N) (l : codepoints) (rest : list codepoints) :
  join_lines ((c :: l) :: rest) = c :: join_lines (l :: rest).
Proof. by destruct rest. Qed.

(** Joining what was split gives the content back. *)
Lemma join_split (s : codepoints) : join_lines (split_lines s) = s.
Proof.
  induction s as [|c r IH]; [done|]. rewrite split_lines_cons.
  destruct (c =? LF)%N eqn:Hc.
  - apply N.eqb_eq in Hc as ->.
    pose proof (split_lines_nonempty r) as Hne.
    cbn [join_lines]. destruct (split_lines r); [done|].
    by rewrite IH.
  - pose proof (split_lines_nonempty r) as Hne.
    destruct (split_lines r) as [|l ls]; [done|].
    by rewrite join_lines_cons_cons, IH.
Qed.

(** The first lines, joined, are a prefix of the content. *)
Lemma join_take_prefix (n : nat) (s : codepoints) :
  ∃ k, join_lines (take n (split_lines s)) = take k s.
Proof.
  revert n. induction s as [|c r IH]; intros n.
  - exists 0. by destruct n as [|[|n]].
  - destruct n as [|n]; [by exists 0|]. rewrite split_lines_cons.
    destruct (c =? LF)%N eqn:Hc.
    + apply N.eqb_eq in Hc as ->. destruct (IH n) as [k Hk].
      cbn [take firstn join_lines].
      destruct (take n (split_lines r)) eqn:Ht; [by exists 0|].
      exists (S k). cbn [app]. by rewrite Hk.
    + pose proof (split_lines_nonempty r) as Hne.
      destruct (IH (S n)) as [k Hk].
      destruct (split_lines r) as [|l ls]; [done|].
      exists (S k). cbn [take firstn] in *.
      by rewrite join_lines_cons_cons, Hk.
Qed.

Lemma split_lines_no_LF (s : codepoints) :
  Forall (λ l, count_occ N.eq_dec l LF = 0) (split_lines s).
Proof.
  induction s as [|c r IH]; [by repeat constructor|].
  rewrite split_lines_cons. destruct (c =? LF)%N eqn:Hc.
  - by constructor.
  - apply N.eqb_neq in Hc.
    destruct (split_lines r) as [|l ls]; [by repeat constructor; rewrite count_occ_cons_neq|].
    inversion IH as [|? ? Hl Hls]; subst. constructor; [|done].
    by rewrite count_occ_cons_neq.
Qed.

Lemma count_join_lines (lines : list codepoints) :
  Forall (λ l, count_occ N.eq_dec l LF = 0) lines →
  count_occ N.eq_dec (join_lines lines) LF = List.length lines - 1.
Proof.
  induction 1 as [|l rest Hl Hrest IH]; [done|].
  cbn [join_lines]. destruct rest as [|l' rest']; [by rewrite Hl|].
  rewrite count_occ_app, Hl, count_occ_cons_eq by done.
  rewrite IH. simpl. lia.
Qed.

Lemma length_split_lines (s : codepoints) :
  List.length (split_lines s) = count_occ N.eq_dec s LF + 1.
Proof.
  induction s as [|c r IH]; [done|]. rewrite split_lines_cons.
  destruct (c =? LF)%N eqn:Hc.
  - apply N.eqb_eq in Hc as ->. rewrite count_occ_cons_eq by done.
    simpl. by rewrite IH.
  - apply N.eqb_neq in Hc. rewrite count_occ_cons_neq by done.
    pose proof (split_lines_nonempty r) as Hne.
    destruct (split_lines r) as [|l ls]; [done|]. exact IH.
Qed.

Lemma count_occ_take (k : nat) (s : codepoints) (x : N) :
  (count_occ N.eq_dec (take k s) x ≤ count_occ N.eq_dec s x)%nat.
Proof.
  rewrite <- (take_drop k s) at 2. rewrite count_occ_app. lia.
Qed.

(** X12.  The preview printed after a conversion shows the start of the
    stripped content and nothing else: it is at most 103 characters long
    and holds at most two line breaks; it is either a prefix of the
    content, or, when longer than 100 characters, the first 100
    characters of the content followed by three dots.  A content of at
    most three lines and at most 100 characters is shown whole. *)
Theorem preview_shows_start_of_content (content : codepoints) :
  (List.length (preview content) ≤ 103)%nat
  ∧ (count_occ N.eq_dec (preview content) LF ≤ 2)%nat
  ∧ ((∃ k, preview content = take k content)
     ∨ ((100 < List.length content)%nat
        ∧ preview content = take 100 content ++ ellipsis))
  ∧ ((List.length content ≤ 100)%nat →
     (count_occ N.eq_dec content LF ≤ 2)%nat →
     preview content = content).
Proof.
  unfold preview.
  destruct (join_take_prefix 3 content) as [k Hk].
  assert (Hcount : (count_occ N.eq_dec
                      (join_lines (take 3 (split_lines content))) LF ≤ 2)%nat).
  { rewrite count_join_lines.
    - rewrite length_take. lia.
    - apply Forall_take, split_lines_no_LF. }
  repeat split.
  - destruct (100 <? _)%nat eqn:Hlen.
    + rewrite length_app, length_take.
      change (List.length ellipsis) with 3. lia.
    + apply Nat.ltb_ge in Hlen. lia.
  - destruct (100 <? _)%nat; [|done].
    rewrite count_occ_app.
    pose proof (count_occ_take 100 (join_lines (take 3 (split_lines content))) LF).
    change (count_occ N.eq_dec ellipsis LF) with 0. lia.
  - destruct (100 <? _)%nat eqn:Hlen; [right|left; by exists k].
    apply Nat.ltb_lt in Hlen. rewrite Hk in *. rewrite length_take in Hlen.
    split; [lia|]. rewrite take_take. do 2 f_equal. lia.
  - intros Hshort Hlines.
    rewrite take_ge by (rewrite length_split_lines; lia).
    rewrite join_split.
    destruct (100 <? _)%nat eqn:Hlen; [|done].
    apply Nat.ltb_lt in Hlen. lia.
Qed.

Lemma preview_shows_start_of_content_witness :
  (List.length [35; 32; 65; 10; 10; 66]%N ≤ 100)%nat
  ∧ (count_occ N.eq_dec [35; 32; 65; 10; 10; 66]%N LF ≤ 2)%nat
  ∧ preview [35; 32; 65; 10; 10; 66]%N = [35; 32; 65; 10; 10; 66]%N.
Proof.
  assert (H1 : (List.length [35; 32; 65; 10; 10; 66]%N ≤ 100)%nat)
    by (vm_compute; lia).
  assert (H2 : (count_occ N.eq_dec [35; 32; 65; 10; 10; 66]%N LF ≤ 2)%nat)
    by (vm_compute; lia).
  split; [exact H1|]. split; [exact H2|].
  exact (proj2 (proj2 (proj2 (preview_shows_start_of_content
                                [35; 32; 65; 10; 10; 66]%N))) H1 H2).
Defined.

(** ** What is written is what was converted *)

Lemma triple_ret {A} (I : list event → Prop) (a : A)
    (JOk : A → list event → Prop) (JRaise : list event → Prop) :
  (∀ tr, I tr → JOk a tr) → triple I (ret a) JOk JRaise.
Proof. intros H tr HI. by apply H. Qed.

Lemma triple_bind {A B} (I : list event → Prop) (K : A → list event → Prop)
    (m : M A) (k : A → M B)
    (JOk : B → list event → Prop) (JRaise : list event → Prop) :
  triple I m K JRaise → (∀ a, triple (K a) (k a) JOk JRaise) →
  triple I (bind m k) JOk JRaise.
Proof.
  intros Hm Hk tr HI. specialize (Hm tr HI). unfold bind.
  destruct (m tr) as [[a|e|c] tr1]; [by apply Hk|done..].
Qed.

Lemma triple_try {A} (I H : list event → Prop) (body : M A)
    (handler : exn → M A)
    (JOk : A → list event → Prop) (JRaise : list event → Prop) :
  triple I body JOk H → (∀ e, triple H (handler e) JOk JRaise) →
  triple I (try_except body handler) JOk JRaise.
Proof.
  intros Hb Hh tr HI. specialize (Hb tr HI). unfold try_except.
  destruct (body tr) as [[a|e|c] tr1]; [done|by apply Hh|done].
Qed.

Lemma triple_for_each {A S} (I : list event → Prop) (l : list A)
    (body : A → S → M S) (s : S) :
  (∀ x s', triple I (body x s') (λ _, I) I) →
  triple I (for_each l body s) (λ _, I) I.
Proof.
  intros Hb. revert s. induction l as [|x l IH]; intros s; simpl.
  - by apply triple_ret.
  - eapply triple_bind; [apply Hb | intros; apply IH].
Qed.

Lemma triple_within {A} (Q : event → Prop) (I JOk JRaise : list event → Prop)
    (m : M A) :
  within Q m →
  (∀ tr evs, I tr → Forall Q evs → JOk (tr ++ evs)) →
  (∀ tr evs, I tr → Forall Q evs → JRaise (tr ++ evs)) →
  triple I m (λ _, JOk) JRaise.
Proof.
  intros Hw HOk HRaise tr HI. destruct (Hw tr) as (r & evs & -> & HQ).
  destruct r; [by apply HOk|by apply HRaise|done].
Qed.

(** A computation that logs nothing keeps the state it runs in. *)
Lemma triple_silent {A} (I JRaise : list event → Prop) (m : M A) :
  within (λ _, False) m → (∀ tr, I tr → JRaise tr) →
  triple I m (λ _, I) JRaise.
Proof.
  intros Hw HJ. apply (triple_within (λ _, False)); [done|..];
    intros tr evs HI HF; destruct HF; rewrite ?app_nil_r; auto; done.
Qed.

Lemma export_pure (t : tool) (fmt : string) (rendered : Rendered)
    (r : result (string * string)) (tr tr' : list event) :
  export t fmt rendered tr = (r, tr') →
  tr' = tr ∧ export t fmt rendered [] = (r, []).
Proof.
  unfold export, bind, lift, ret, raise.
  destruct t; try destruct (decide (fmt = "markdown"));
    try destruct (export_markdown rendered);
    intros H; by simplify_eq.
Qed.

Lemma within_size_printed (Q : event → Prop) (w : World) (t : tool)
    (file_path : Path) :
  (∀ p, Q (EStat p)) →
  within Q (match t with
            | markitdown => ret tt
            | _ => stat w file_path ;;; ret tt
            end)%trace.
Proof. intros HQ. unfold stat. destruct t; within_steps; done. Qed.

Lemma within_single_file_size (Q : event → Prop) (w : World) (t : tool)
    (file_path : Path) :
  (∀ p, Q (EStat p)) → (∀ p, Q (ERead p)) →
  within Q (single_file_size w t file_path).
Proof.
  intros Hs Hr. unfold single_file_size, read_bytes, stat.
  destruct t; within_steps; done.
Qed.

Lemma tool_arg_single_file (t : tool) (file_path : Path) :
  tool_arg t (single_file_arg t file_path).
Proof. by destruct t. Qed.

Section Follows.
Variables (w : World) (t : tool) (fmt : string) (base : list event).

Lemma follows_nil : writes_follow_conversions w t fmt base [].
Proof. intros pre p c post H. by destruct pre. Qed.

Lemma follows_snoc_quiet (evs : list event) (ev : event) :
  is_write ev = false →
  writes_follow_conversions w t fmt base evs →
  writes_follow_conversions w t fmt base (evs ++ [ev]).
Proof.
  intros Hev H pre p c post Heq.
  destruct post as [|x post _] using rev_ind.
  - apply app_inj_tail in Heq as [_ ->]. done.
  - change (EWrite p c :: post ++ [x]) with ((EWrite p c :: post) ++ [x]) in Heq.
    rewrite app_assoc in Heq. apply app_inj_tail in Heq as [-> _].
    by eapply H.
Qed.

Lemma follows_app_quiet (evs evs' : list event) :
  Forall (λ ev, is_write ev = false) evs' →
  writes_follow_conversions w t fmt base evs →
  writes_follow_conversions w t fmt base (evs ++ evs').
Proof.
  intros HF. revert evs. induction HF as [|ev evs' Hev _ IH]; intros evs H.
  - by rewrite app_nil_r.
  - change (ev :: evs') with ([ev] ++ evs'). rewrite app_assoc.
    by apply IH, follows_snoc_quiet.
Qed.

Lemma follows_snoc_write (evs : list event) (a : conv_arg)
    (rendered : Rendered) (p : Path) (content extension : string) :
  writes_follow_conversions w t fmt base evs →
  tool_arg t a →
  lib_convert w (base ++ evs ++ [EConvert a]) a = inr rendered →
  export t fmt rendered [] = (Ok (content, extension), []) →
  writes_follow_conversions w t fmt base
    (evs ++ [EConvert a; EMkdir (parent p); EWrite p content]).
Proof.
  intros H Ha Hc He pre p' c' post Heq.
  change [EConvert a; EMkdir (parent p); EWrite p content]
    with ([EConvert a; EMkdir (parent p)] ++ [EWrite p content]) in Heq.
  rewrite app_assoc in Heq.
  destruct post as [|x post _] using rev_ind.
  - apply app_inj_tail in Heq as [<- [= <- <-]]. by exists evs, a, rendered, extension.
  - change (EWrite p' c' :: post ++ [x])
      with ((EWrite p' c' :: post) ++ [x]) in Heq.
    rewrite app_assoc in Heq. apply app_inj_tail in Heq as [Heq _].
    eapply (follows_app_quiet evs [EConvert a; EMkdir (parent p)]); [|done..].
    by repeat constructor.
Qed.

Lemma run_so_far_quiet (tr evs : list event) :
  run_so_far w t fmt base tr →
  Forall (λ ev, is_write ev = false) evs →
  run_so_far w t fmt base (tr ++ evs).
Proof.
  intros (evs0 & -> & H) HF. exists (evs0 ++ evs).
  split; [by rewrite app_assoc | by apply follows_app_quiet].
Qed.

Lemma triple_quiet {A} (m : M A) :
  within (λ ev, is_write ev = false) m →
  triple (run_so_far w t fmt base) m (λ _, run_so_far w t fmt base)
         (run_so_far w t fmt base).
Proof.
  intros Hw. eapply triple_within; [exact Hw|..]; apply run_so_far_quiet.
Qed.

Lemma conversion_done_run (a : conv_arg) (rendered : Rendered)
    (tr : list event) :
  conversion_done w t fmt base a rendered tr → run_so_far w t fmt base tr.
Proof.
  intros (evs & -> & H & _). exists (evs ++ [EConvert a]).
  split; [done | by apply follows_snoc_quiet].
Qed.

Lemma text_exported_run (a : conv_arg) (rendered : Rendered)
    (ce : string * string) (tr : list event) :
  text_exported w t fmt base a rendered ce tr → run_so_far w t fmt base tr.
Proof. intros [H _]. by eapply conversion_done_run. Qed.

Lemma triple_convert (a : conv_arg) :
  tool_arg t a →
  triple (run_so_far w t fmt base) (convert w a)
         (conversion_done w t fmt base a) (run_so_far w t fmt base).
Proof.
  intros Ha tr (evs & -> & H). unfold convert, call. cbv zeta.
  destruct (lib_convert w ((base ++ evs) ++ [EConvert a]) a) as [e|rendered]
    eqn:Hc.
  - exists (evs ++ [EConvert a]).
    split; [by rewrite app_assoc | by apply follows_snoc_quiet].
  - exists evs. by rewrite <- app_assoc in *.
Qed.

Lemma triple_export (a : conv_arg) (rendered : Rendered) :
  triple (conversion_done w t fmt base a rendered) (export t fmt rendered)
         (text_exported w t fmt base a rendered) (run_so_far w t fmt base).
Proof.
  intros tr H. destruct (export t fmt rendered tr) as [r tr'] eqn:He.
  apply export_pure in He as [-> He].
  destruct r; [by split | by eapply conversion_done_run | done].
Qed.

Lemma triple_mkdir (a : conv_arg) (rendered : Rendered)
    (ce : string * string) (dir : Path) :
  triple (text_exported w t fmt base a rendered ce) (mkdir w dir)
         (λ _, directory_made w t fmt base a rendered ce dir)
         (run_so_far w t fmt base).
Proof.
  intros tr [(evs & -> & H & Ha & Hc) He]. unfold mkdir, call. cbv zeta.
  destruct (os_mkdir w _ dir) as [e|u].
  - exists (evs ++ [EConvert a; EMkdir dir]).
    split; [by rewrite <- !app_assoc|].
    apply follows_app_quiet; [by repeat constructor | done].
  - exists evs. by rewrite <- !app_assoc.
Qed.

Lemma triple_write (a : conv_arg) (rendered : Rendered)
    (ce : string * string) (p : Path) :
  triple (directory_made w t fmt base a rendered ce (parent p))
         (write w p ce.1)
         (λ _, run_so_far w t fmt base) (run_so_far w t fmt base).
Proof.
  intros tr (evs & -> & H & Ha & Hc & He). unfold write, call. cbv zeta.
  assert (Hrun : run_so_far w t fmt base
                   ((base ++ evs ++ [EConvert a; EMkdir (parent p)])
                    ++ [EWrite p ce.1])).
  { exists (evs ++ [EConvert a; EMkdir (parent p); EWrite p ce.1]).
    split; [by rewrite <- !app_assoc|].
    destruct ce as [content extension]. by eapply follows_snoc_write. }
  by destruct (os_write w _ p ce.1).
Qed.

Ltac save_steps :=
  repeat first
    [ eapply triple_bind; [apply triple_export | intros ?]
    | eapply triple_bind;
        [apply triple_silent;
           [solve [auto with within] | apply text_exported_run] | intros ?]
    | eapply triple_bind; [apply triple_mkdir | intros ?]
    | eapply triple_bind; [apply triple_write | intros ?]
    | progress cbv zeta ].

Ltac quiet_rest :=
  apply triple_quiet; unfold stat; within_steps; done.

Lemma convert_folder_file_follows (output_dir : Path) (source_name : string)
    (folder_path file_path : Path) :
  triple (run_so_far w t fmt base)
         (convert_folder_file w t fmt output_dir source_name folder_path
                              file_path)
         (λ _, run_so_far w t fmt base) (run_so_far w t fmt base).
Proof.
  unfold convert_folder_file.
  eapply triple_bind; [by apply triple_convert | intros rendered].
  save_steps. quiet_rest.
Qed.

Lemma write_single_file_follows (output_dir : Path) (source_name : string)
    (file_path : Path) :
  triple (run_so_far w t fmt base)
         (write_single_file w t fmt output_dir source_name file_path)
         (λ _, run_so_far w t fmt base) (run_so_far w t fmt base).
Proof.
  unfold write_single_file.
  eapply triple_bind;
    [apply triple_convert, tool_arg_single_file | intros rendered].
  save_steps.
  eapply triple_bind;
    [by apply triple_quiet, within_size_printed | intros ?].
  quiet_rest.
Qed.

Lemma convert_url_follows (output_dir : Path) (source_name url : string) :
  triple (run_so_far w t fmt base)
         (convert_url w t fmt output_dir source_name url)
         (λ _, run_so_far w t fmt base) (run_so_far w t fmt base).
Proof.
  unfold convert_url.
  eapply triple_bind; [by apply triple_convert | intros rendered].
  save_steps. quiet_rest.
Qed.

Lemma run_handler_follows (h : handler) (cfg : source_config)
    (output_dir : Path) :
  triple (run_so_far w t fmt base) (run_handler w t fmt h cfg output_dir)
         (λ _, run_so_far w t fmt base) (run_so_far w t fmt base).
Proof.
  destruct h; simpl.
  - unfold process_folder_source.
    destruct (negb (exists_ w _)); [by apply triple_ret|].
    apply triple_for_each. intros file_path [[c f] s]. unfold folder_step.
    destruct (is_file w file_path && supported t file_path);
      [|by apply triple_ret].
    eapply triple_bind; [quiet_rest | intros st].
    destruct (too_large (st_size st)).
    + eapply triple_bind; [quiet_rest | intros ?]. by apply triple_ret.
    + eapply triple_bind; [quiet_rest | intros ?].
      eapply triple_try; [|intros; by apply triple_ret].
      eapply triple_bind; [apply convert_folder_file_follows | intros ?].
      by apply triple_ret.
  - unfold process_file_source.
    destruct (negb (exists_ w _)); [by apply triple_ret|].
    destruct (negb (supported t _)); [by apply triple_ret|].
    eapply triple_try; [|intros; by apply triple_ret].
    unfold convert_single_file.
    eapply triple_bind;
      [by apply triple_quiet, within_single_file_size | intros size]. destruct (too_large size); [by apply triple_ret|].
    apply write_single_file_follows.
  - unfold process_url_source.
    eapply triple_try; [|intros; by apply triple_ret].
    apply convert_url_follows.
Qed.

Lemma convert_from_sources_follows_from (sources : list source_config)
    (output_dir : Path) :
  triple (run_so_far w t fmt base)
         (convert_from_sources w t fmt sources output_dir)
         (λ _, run_so_far w t fmt base) (run_so_far w t fmt base).
Proof.
  apply triple_for_each. intros cfg [[tc tf] ts]. unfold source_step.
  destruct (dispatch t (src_type cfg)) as [h|]; [|by apply triple_ret].
  eapply triple_bind; [apply run_handler_follows | intros [[c f] s]].
  by apply triple_ret.
Qed.
End Follows.

Lemma convert_from_sources_follows (w : World) (t : tool) (fmt : string)
    (sources : list source_config) (output_dir : Path) (tr : list event) :
  ∃ totals evs,
    convert_from_sources w t fmt sources output_dir tr = (Ok totals, tr ++ evs)
    ∧ writes_follow_conversions w t fmt tr evs.
Proof.
  destruct (convert_from_sources_total w t fmt sources output_dir tr)
    as (totals & evs & Hrun).
  exists totals, evs. split; [done|].
  assert (Hstart : run_so_far w t fmt tr tr).
  { exists []. split; [by rewrite app_nil_r | apply follows_nil]. }
  pose proof (convert_from_sources_follows_from w t fmt tr sources output_dir
                tr Hstart) as H.
  rewrite Hrun in H. destruct H as (evs' & Heq & H).
  by apply app_inv_head in Heq as ->.
Qed.

(** X13.  Whatever the sources and the world, every file a run writes
    holds the text of the conversion made just before it: each write is
    preceded, with nothing in between, by a conversion call and by the
    creation of the directory of the written file, the call returned a
    result, and the content written is the text exported from that
    result.  The argument of the call is a string, or in the markitdown
    script a stream. *)
Theorem written_content_is_converted_text (w : World) (t : tool)
    (fmt : string) (sources : list source_config) (output_dir : Path)
    (tr : list event) :
  ∃ totals evs,
    convert_from_sources w t fmt sources output_dir tr = (Ok totals, tr ++ evs)
    ∧ writes_follow_conversions w t fmt tr evs
    ∧ (∀ p content, In (EWrite p content) evs →
       ∃ before a rendered extension,
         lib_convert w before a = inr rendered
         ∧ export t fmt rendered [] = (Ok (content, extension), [])).
Proof.
  destruct (convert_from_sources_follows w t fmt sources output_dir tr)
    as (totals & evs & Hrun & H).
  exists totals, evs. split; [done|]. split; [done|].
  intros p content (pre & post & ->)%in_split.
  destruct (H pre p content post eq_refl)
    as (pre' & a & rendered & extension & _ & _ & Hc & He).
  by exists (tr ++ pre' ++ [EConvert a]), a, rendered, extension.
Qed.

(** ** The pymupdf script writes what it extracted *)

Lemma extract_text_returned (strip : string → string)
    (fitz_open : string → string + Document) (pdf_path mode content : string)
    (state : doc_state) :
  extract_text_from_pdf strip fitz_open pdf_path mode = (inr content, state) →
  state = Closed ∧ ∃ rest, content = header +:+ rest.
Proof.
  unfold extract_text_from_pdf.
  destruct (fitz_open pdf_path) as [msg|doc]; [done|].
  destruct (pages_loop strip mode (doc_pages doc) 0 []) as [msg|sections];
    [done|].
  destruct (doc_close doc) as [msg|u]; [done|].
  intros [= <- <-]. split; [done|]. destruct sections; eauto.
Qed.

Example pymupdf_sample_run :
  process_file_source (pymupdf_world ascii_strip (λ _, sample_fitz) sample_world)
    pymupdf OUTPUT_FORMAT
    {| src_type := Some "file"; src_path := "docs/a.pdf";
       src_name := None; src_recursive := None |}
    ["pymupdf"; "output"] []
  = (Ok (1, 0, 0),
     [EStat ["docs"; "a.pdf"]; EConvert (ArgStr "docs/a.pdf");
      EMkdir ["pymupdf"; "output"; "single_files"];
      EWrite ["pymupdf"; "output"; "single_files"; "a.md"]
             ("# PDF 內容提取" +:+ nl +:+ nl +:+ "## 頁面 2" +:+ nl +:+ nl
              +:+ "Hello");
      EStat ["docs"; "a.pdf"]]).
Proof. reflexivity. Qed.

(** X14.  In the pymupdf script, whose conversion entry point is
    [extract_text_from_pdf] in the configured mode, every file a run
    writes holds exactly the text that function returned for the path
    converted just before the write; the document was closed again, and
    the text starts with the title line of the extraction. *)
Theorem pymupdf_writes_extracted_text (strip : string → string)
    (fitz : list event → string → string + Document) (w : World)
    (fmt : string) (sources : list source_config) (output_dir : Path)
    (tr : list event) :
  ∃ totals evs,
    convert_from_sources (pymupdf_world strip fitz w) pymupdf fmt sources
                         output_dir tr
    = (Ok totals, tr ++ evs)
    ∧ ∀ pre p content post,
        evs = pre ++ EWrite p content :: post →
        ∃ pre' pdf_path,
          pre = pre' ++ [EConvert (ArgStr pdf_path); EMkdir (parent p)]
          ∧ extract_text_from_pdf strip
              (fitz (tr ++ pre' ++ [EConvert (ArgStr pdf_path)]))
              pdf_path TEXT_EXTRACTION_MODE
            = (inr content, Closed)
          ∧ ∃ rest, content = header +:+ rest.
Proof.
  destruct (convert_from_sources_follows (pymupdf_world strip fitz w) pymupdf
              fmt sources output_dir tr) as (totals & evs & Hrun & H).
  exists totals, evs. split; [done|].
  intros pre p content post Hevs.
  destruct (H pre p content post Hevs)
    as (pre' & a & rendered & extension & -> & Ha & Hc & He).
  destruct a as [pdf_path|stream_name]; [|done].
  exists pre', pdf_path. split; [done|].
  cbn [lib_convert pymupdf_world] in Hc.
  destruct (extract_text_from_pdf strip _ pdf_path TEXT_EXTRACTION_MODE)
    as [[message|text] state] eqn:Hx; [done|].
  cbn [fst] in Hc. injection Hc as <-.
  unfold export, ret in He. cbn [text_content extracted] in He.
  injection He as <- _.
  destruct (extract_text_returned _ _ _ _ _ _ Hx) as [-> Hrest].
  by split.
Qed.
